(** * 1PPS generator for the ATtiny25/45/85: build-time checks and pulse engine

    A shallow embedding of [main.c] (the down-counter program) and of its
    up-counter sibling.  Two layers are modelled:

    - the preprocessor conditionals that validate the six build-time
      constants ([#if] ... [#error]), with the preprocessor's own integer
      arithmetic (every operand is an [intmax_t] or [uintmax_t]);
    - the run-time engine: the shared 16-bit counter [cnt], the timer
      handler [pps_out], the initialiser [pps_init] and the polling loop
      of [main]. *)

From Stdlib Require Import ZArith List Bool Lia.
Import ListNotations.

Local Open Scope Z_scope.

(** ** Preprocessor arithmetic *)

Module Cpp.

(** Width of [intmax_t] and [uintmax_t]. *)
Definition precision : Z := 64.

Definition wrap_unsigned (z : Z) : Z := z mod 2 ^ precision.

Definition wrap_signed (z : Z) : Z :=
  (z + 2 ^ (precision - 1)) mod 2 ^ precision - 2 ^ (precision - 1).

(** A preprocessor number: its value and whether it is unsigned. *)
Record num : Type := mk_num { value : Z; unsignedp : bool }.

Definition norm (u : bool) (z : Z) : Z :=
  if u then wrap_unsigned z else wrap_signed z.

(** A plain decimal constant such as [243], or its negation: a signed
    number, as long as it fits [intmax_t]. *)
Definition int_lit (z : Z) : num := mk_num (wrap_signed z) false.

(** A constant with an unsigned suffix such as [19440000ul]. *)
Definition ulong_lit (z : Z) : num := mk_num (wrap_unsigned z) true.

(** An identifier that is not a macro evaluates to [0]. *)
Definition undefined_identifier : num := mk_num 0 false.

(** Arithmetic: the result is unsigned as soon as one operand is, and
    wraps around at [precision] bits. *)
Definition arith (f : Z -> Z -> Z) (a b : num) : num :=
  let u := unsignedp a || unsignedp b in
  mk_num (norm u (f (norm u (value a)) (norm u (value b)))) u.

(** Comparisons: both operands are converted to unsigned as soon as one
    is; the result is the signed [0] or [1]. *)
Definition compare (f : Z -> Z -> bool) (a b : num) : num :=
  let u := unsignedp a || unsignedp b in
  mk_num (if f (norm u (value a)) (norm u (value b)) then 1 else 0) false.

Definition mul : num -> num -> num := arith Z.mul.
Definition sub : num -> num -> num := arith Z.sub.
Definition eq : num -> num -> num := compare Z.eqb.
Definition ne : num -> num -> num := compare (fun x y => negb (x =? y)).
Definition gt : num -> num -> num := compare Z.gtb.

(** The controlling value of [#if] and [#elif]. *)
Definition truth (a : num) : bool := negb (value a =? 0).

Definition modulus : Z := 2 ^ precision.

(** The constants that [intmax_t] and [uintmax_t] hold. *)
Definition fits_signed (z : Z) : Prop := - 2 ^ 63 <= z < 2 ^ 63.
Definition fits_unsigned (z : Z) : Prop := 0 <= z < 2 ^ 64.

End Cpp.

(** ** Build-time configuration of [main.c] *)

(** The six user constants of the "hardware configuration" block.
    [F_OSC] is written with the suffix [ul], the others are plain decimal
    constants. *)
Record config : Type := mk_config {
  F_OSC : Z;
  PS_FUSE : Z;
  PS_TMR : Z;
  TMR_TOP : Z;
  ISR_CNT : Z;
  PPS_DC : Z
}.

(** The constants as they stand in the file. *)
Definition configured : config :=
  mk_config 19440000 8 8 243 1250 10.

Definition set_TMR_TOP (v : Z) (c : config) : config :=
  mk_config (F_OSC c) (PS_FUSE c) (PS_TMR c) v (ISR_CNT c) (PPS_DC c).

Definition set_PPS_DC (v : Z) (c : config) : config :=
  mk_config (F_OSC c) (PS_FUSE c) (PS_TMR c) (TMR_TOP c) (ISR_CNT c) v.

(** [PPS_PIN] is [(1<<2)]: the pulse leaves on PB2. *)
Definition PPS_PIN : Z := Z.shiftl 1 2.

(** Prescaler selectors of the timer driver, by name. *)
Inductive tmr0_ps : Type :=
| TMR0_PS1x | TMR0_PS8x | TMR0_PS64x | TMR0_PS256x | TMR0_PS1024x.

(** What a failing build prints. *)
Inductive diagnostic : Type :=
| ElifWithNoExpression   (* the preprocessor's own: "#elif with no expression" *)
| InvalidPsTmr           (* "Invalid PS_TMR settings!" *)
| FOscNotDivisible       (* "F_OSC not divisable by PS_FUSE, PS_TMR, TMR_TOP, and ISR_CNT" *)
| TmrTopTooLarge         (* "TMR_TOP is too large: it must be between 32 - 255" *)
| IsrCntTooLarge         (* "ISR_CNT is too large: it must be between 1 - 65536" *)
| PpsDcTooBig.           (* "PPS_DC is too big: it must be less than ISR_CNT" *)

(** ** Conditional groups *)

(** The body of a conditional group of this file is one line: a
    definition of [PPS_PS] or an [#error]. *)
Inductive group_body : Type :=
| Define_PPS_PS (v : tmr0_ps)
| Error (d : diagnostic).

(** [#if c1 b1 #elif c2 b2 ... #else b].  A controlling expression may be
    missing, as on the line that reads just [#elif].  Such a line is
    looked at only when no earlier group was taken; the preprocessor then
    reports it and does not take its group. *)
Fixpoint if_chain (groups : list (option Cpp.num * group_body))
    (otherwise : option group_body) : option group_body * list diagnostic :=
  match groups with
  | [] => (otherwise, [])
  | (Some c, body) :: rest =>
      if Cpp.truth c then (Some body, []) else if_chain rest otherwise
  | (None, _) :: rest =>
      let '(taken, ds) := if_chain rest otherwise in
      (taken, ElifWithNoExpression :: ds)
  end.

(** The diagnostics of a chain: those of the preprocessor, then the
    [#error] of the group taken, if it is one. *)
Definition chain_diagnostics (r : option group_body * list diagnostic)
    : list diagnostic :=
  snd r ++ match fst r with Some (Error d) => [d] | _ => [] end.

Definition chain_define (r : option group_body * list diagnostic)
    : option tmr0_ps :=
  match fst r with Some (Define_PPS_PS v) => Some v | _ => None end.

(** ** The checks of [main.c] *)

Section Checks.

Variable c : config.

Let f_osc : Cpp.num := Cpp.ulong_lit (F_OSC c).
Let ps_fuse : Cpp.num := Cpp.int_lit (PS_FUSE c).
Let ps_tmr : Cpp.num := Cpp.int_lit (PS_TMR c).
Let tmr_top : Cpp.num := Cpp.int_lit (TMR_TOP c).
Let isr_cnt : Cpp.num := Cpp.int_lit (ISR_CNT c).

(** [#if PS_TMR == 1] ... [#elif PS_TMR == 256] ... [#elif] ... [#else
    #error] ... [#endif] *)
Definition prescaler_chain : option group_body * list diagnostic :=
  if_chain
    [ (Some (Cpp.eq ps_tmr (Cpp.int_lit 1)), Define_PPS_PS TMR0_PS1x);
      (Some (Cpp.eq ps_tmr (Cpp.int_lit 8)), Define_PPS_PS TMR0_PS8x);
      (Some (Cpp.eq ps_tmr (Cpp.int_lit 64)), Define_PPS_PS TMR0_PS64x);
      (Some (Cpp.eq ps_tmr (Cpp.int_lit 256)), Define_PPS_PS TMR0_PS256x);
      (None, Define_PPS_PS TMR0_PS1024x) ]
    (Some (Error InvalidPsTmr)).

(** The macro [PPS_PS], when the chain defines it. *)
Definition PPS_PS : option tmr0_ps := chain_define prescaler_chain.

(** [#if F_OSC != PS_FUSE * PS_TMR * TMR_TOP * ISR_CNT] *)
Definition factorization_check : option group_body * list diagnostic :=
  if_chain
    [ (Some (Cpp.ne f_osc
               (Cpp.mul (Cpp.mul (Cpp.mul ps_fuse ps_tmr) tmr_top) isr_cnt)),
       Error FOscNotDivisible) ]
    None.

(** [#if TMR_TOP > 255] *)
Definition tmr_top_check : option group_body * list diagnostic :=
  if_chain
    [ (Some (Cpp.gt tmr_top (Cpp.int_lit 255)), Error TmrTopTooLarge) ]
    None.

(** [#if ISR_CNT > 65536-1] *)
Definition isr_cnt_check : option group_body * list diagnostic :=
  if_chain
    [ (Some (Cpp.gt isr_cnt (Cpp.sub (Cpp.int_lit 65536) (Cpp.int_lit 1))),
       Error IsrCntTooLarge) ]
    None.

(** [#if PPS_CN > ISR_CNT]: the file defines [PPS_DC]; no macro is
    called [PPS_CN]. *)
Definition pps_dc_check : option group_body * list diagnostic :=
  if_chain
    [ (Some (Cpp.gt Cpp.undefined_identifier isr_cnt), Error PpsDcTooBig) ]
    None.

(** Everything the build reports, in the order of the file. *)
Definition validate : list diagnostic :=
  chain_diagnostics prescaler_chain
  ++ chain_diagnostics factorization_check
  ++ chain_diagnostics tmr_top_check
  ++ chain_diagnostics isr_cnt_check
  ++ chain_diagnostics pps_dc_check.

(** The build goes through when nothing is reported. *)
Definition accepted : bool :=
  match validate with [] => true | _ => false end.

End Checks.

(** ** The microcontroller *)

(** The user handlers a timer can be given. *)
Inductive handler : Type := Pps_out.

(** What the program does to the hardware, in the order it does it. *)
Inductive hw_op : Type :=
| DriveHigh (pins : Z)
| DriveLow (pins : Z)
| MakeOutput (pins : Z)
| TimerConfigure (ps : Z)
| TimerSetPeriod (pr : Z)
| TimerInstall (h : handler)
| EnableInterrupts.

(** The state the program reads and writes: the shared counter [cnt],
    port B with its direction register, timer 0 and the global interrupt
    flag. *)
Record mcu : Type := mk_mcu {
  cnt : Z;
  PORTB : Z;
  DDRB : Z;
  tmr0_prescaler : Z;
  tmr0_period : Z;
  tmr0_handler : option handler;
  interrupts_enabled : bool
}.

Definition with_cnt (v : Z) (s : mcu) : mcu :=
  mk_mcu v (PORTB s) (DDRB s) (tmr0_prescaler s) (tmr0_period s)
    (tmr0_handler s) (interrupts_enabled s).

Definition with_PORTB (v : Z) (s : mcu) : mcu :=
  mk_mcu (cnt s) v (DDRB s) (tmr0_prescaler s) (tmr0_period s)
    (tmr0_handler s) (interrupts_enabled s).

Definition with_DDRB (v : Z) (s : mcu) : mcu :=
  mk_mcu (cnt s) (PORTB s) v (tmr0_prescaler s) (tmr0_period s)
    (tmr0_handler s) (interrupts_enabled s).

Definition with_tmr0_prescaler (v : Z) (s : mcu) : mcu :=
  mk_mcu (cnt s) (PORTB s) (DDRB s) v (tmr0_period s)
    (tmr0_handler s) (interrupts_enabled s).

Definition with_tmr0_period (v : Z) (s : mcu) : mcu :=
  mk_mcu (cnt s) (PORTB s) (DDRB s) (tmr0_prescaler s) v
    (tmr0_handler s) (interrupts_enabled s).

Definition with_tmr0_handler (v : option handler) (s : mcu) : mcu :=
  mk_mcu (cnt s) (PORTB s) (DDRB s) (tmr0_prescaler s) (tmr0_period s)
    v (interrupts_enabled s).

Definition with_interrupts_enabled (v : bool) (s : mcu) : mcu :=
  mk_mcu (cnt s) (PORTB s) (DDRB s) (tmr0_prescaler s) (tmr0_period s)
    (tmr0_handler s) v.

(** A [void] function of the program: it changes the state and leaves a
    trace of hardware operations. *)
Definition action : Type := mcu -> mcu * list hw_op.

Definition skip : action := fun s => (s, []).

Definition and_then (a b : action) : action :=
  fun s =>
    let '(s1, t1) := a s in
    let '(s2, t2) := b s1 in
    (s2, t1 ++ t2).

Notation "a ;; b" := (and_then a b) (at level 61, right associativity).

(** [if (test) a]. *)
Definition when (test : mcu -> bool) (a : action) : action :=
  fun s => if test s then a s else skip s.

(** An assignment to [cnt]. *)
Definition assign_cnt (f : mcu -> Z) : action :=
  fun s => (with_cnt (f s) s, []).

Definition state_after (a : action) (s : mcu) : mcu := fst (a s).
Definition trace_of (a : action) (s : mcu) : list hw_op := snd (a s).

(** [n] times the same action. *)
Fixpoint times (n : nat) (a : action) : action :=
  match n with
  | O => skip
  | S k => a ;; times k a
  end.

(** Conversions to [uint16_t] and [uint32_t]. *)
Definition to_u16 (z : Z) : Z := z mod 2 ^ 16.
Definition to_u32 (z : Z) : Z := z mod 2 ^ 32.

(** [int] is 16 bits wide on the AVR. *)
Definition fits_int (z : Z) : bool := (-32768 <=? z) && (z <=? 32767).

(** *** The hardware layer *)

(** Modelled from the spec: [IO_SET] of gpio.h, which is not part of the
    sources; the GPIO collaborator's [drive_high(pin_mask)], all pins of
    the mask driven alike. *)
Definition IO_SET (pins : Z) : action :=
  fun s => (with_PORTB (Z.lor (PORTB s) pins) s, [DriveHigh pins]).

(** Modelled from the spec: [IO_CLR] of gpio.h; the GPIO collaborator's
    [drive_low(pin_mask)]. *)
Definition IO_CLR (pins : Z) : action :=
  fun s => (with_PORTB (Z.ldiff (PORTB s) pins) s, [DriveLow pins]).

(** Modelled from the spec: [IO_OUT] of gpio.h; the GPIO collaborator's
    [set_direction_output(pin_mask)]. *)
Definition IO_OUT (pins : Z) : action :=
  fun s => (with_DDRB (Z.lor (DDRB s) pins) s, [MakeOutput pins]).

(** Modelled from the spec: [tmr0_init] of the timer driver; the timer
    collaborator's [configure(prescaler)]. *)
Definition tmr0_init (ps : Z) : action :=
  fun s => (with_tmr0_prescaler ps s, [TimerConfigure ps]).

(** Modelled from the spec: [tmr0a_setpr] of the timer driver; the timer
    collaborator's [set_reload(value)]. *)
Definition tmr0a_setpr (pr : Z) : action :=
  fun s => (with_tmr0_period pr s, [TimerSetPeriod pr]).

(** Modelled from the spec: [tmr0a_act] of the timer driver; the timer
    collaborator's [install_boundary_handler(callback)]. *)
Definition tmr0a_act (h : handler) : action :=
  fun s => (with_tmr0_handler (Some h) s, [TimerInstall h]).

(** Modelled from the spec: [ei] of the device layer; the global
    interrupt control's [enable_interrupts()]. *)
Definition ei : action :=
  fun s => (with_interrupts_enabled true s, [EnableInterrupts]).

Definition pin_high (s : mcu) : bool := Z.land (PORTB s) PPS_PIN =? PPS_PIN.
Definition pin_low (s : mcu) : bool := Z.land (PORTB s) PPS_PIN =? 0.
Definition pin_is_output (s : mcu) : bool := Z.land (DDRB s) PPS_PIN =? PPS_PIN.

Definition is_drive_high (op : hw_op) : bool :=
  match op with DriveHigh _ => true | _ => false end.

Definition is_drive_low (op : hw_op) : bool :=
  match op with DriveLow _ => true | _ => false end.

Definition is_enable_interrupts (op : hw_op) : bool :=
  match op with EnableInterrupts => true | _ => false end.

(** Rising and falling writes of a trace. *)
Definition rising (t : list hw_op) : nat := length (filter is_drive_high t).
Definition falling (t : list hw_op) : nat := length (filter is_drive_low t).

(** ** The down-counter program, [main.c] *)

Section Engine.

Variable c : config.

(** Of the timer driver's header, which is not part of the sources:
    the mask of the prescaler bits and the numbers behind the selector
    names. *)
Variable TMR0_PSMASK : Z.
Variable selector : tmr0_ps -> Z.

(** Of the device layer, which is not part of the sources: the reset of
    the controller. *)
Variable mcu_init : action.

(** [volatile uint16_t cnt=ISR_CNT;] *)
Definition cnt_initial : Z := to_u16 (ISR_CNT c).

(** [void pps_out(void)] *)
Definition pps_out : action :=
  assign_cnt (fun s => to_u16 (cnt s - 1)) ;;
  when (fun s => cnt s =? 0)
    (assign_cnt (fun _ => to_u16 (ISR_CNT c)) ;;
     IO_SET PPS_PIN).

Definition call (h : handler) : action :=
  match h with Pps_out => pps_out end.

(** [void pps_init(uint32_t ps)] *)
Definition pps_init (ps : Z) : action :=
  let ps := to_u32 ps in
  assign_cnt (fun _ => to_u16 (ISR_CNT c)) ;;
  IO_CLR PPS_PIN ;;
  IO_OUT PPS_PIN ;;
  let ps := Z.land ps (to_u32 TMR0_PSMASK) in
  tmr0_init ps ;;
  tmr0a_setpr (TMR_TOP c) ;;
  tmr0a_act Pps_out.

(** [ISR_CNT - PPS_DC], as the loop compares it with [cnt].  When both
    constants are [int]s so is their difference, and the comparison
    with the [uint16_t] counter is made in [unsigned int]; a wider
    constant makes it a comparison in a signed type that holds every
    value of the counter. *)
Definition duty_threshold : Z :=
  let d := ISR_CNT c - PPS_DC c in
  if fits_int (ISR_CNT c) && fits_int (PPS_DC c) then to_u16 d else d.

(** The body of [while(1)] in [main]. *)
Definition main_loop_body : action :=
  when (fun s => cnt s =? duty_threshold) (IO_CLR PPS_PIN).

(** [main] up to its loop; it is compiled only when [PPS_PS] is
    defined. *)
Definition main_setup : option action :=
  match PPS_PS c with
  | Some ps => Some (mcu_init ;; pps_init (selector ps) ;; ei)
  | None => None
  end.

(** The timer reaches its period: the installed handler runs, if
    interrupts are enabled. *)
Definition timer_interrupt : action :=
  fun s =>
    match tmr0_handler s with
    | Some h => if interrupts_enabled s then call h s else skip s
    | None => skip s
    end.

(** One timer period of the running engine: the handler, then the
    loop of [main]. *)
Definition period : action := timer_interrupt ;; main_loop_body.

(** Calls of the handler and passes of the loop, in any order. *)
Inductive event : Type := Invoke | Poll.

Definition step (e : event) : action :=
  match e with
  | Invoke => pps_out
  | Poll => main_loop_body
  end.

Fixpoint run (l : list event) : action :=
  match l with
  | [] => skip
  | e :: rest => step e ;; run rest
  end.

Definition is_invoke (e : event) : bool :=
  match e with Invoke => true | Poll => false end.

Definition invocations (l : list event) : nat := length (filter is_invoke l).

(** The states the program can be in once [pps_init] has returned. *)
Inductive reachable : mcu -> Prop :=
| reach_init (ps : Z) (s : mcu) : reachable (state_after (pps_init ps) s)
| reach_ei (s : mcu) : reachable s -> reachable (state_after ei s)
| reach_step (e : event) (s : mcu) :
    reachable s -> reachable (state_after (step e) s).

(** What follows a rising edge: the loop, then [d] calls of the
    handler, the loop after each. *)
Definition duty_window (d : nat) : action :=
  main_loop_body ;; times d (pps_out ;; main_loop_body).

End Engine.

(** The traces of [n] calls of a handler, call by call. *)
Fixpoint calls (h : action) (n : nat) (s : mcu) : list (list hw_op) :=
  match n with
  | O => []
  | S k => trace_of h s :: calls h k (state_after h s)
  end.

Definition drives_high (t : list hw_op) : bool := existsb is_drive_high t.
Definition drives_low (t : list hw_op) : bool := existsb is_drive_low t.

(** ** The up-counter program *)

Module UpCounter.

(** Its "hardware configuration" block: [F_CLK] and [TMR_TOP]; the
    prescaler is fixed to [TMR0_PS64x]. *)
Record config : Type := mk_config {
  F_CLK : Z;
  TMR_TOP : Z
}.

(** [19440000ul/1] and [250]. *)
Definition configured : config := mk_config (19440000 / 1) 250.

Section Engine.

Variable c : config.

(** [(F_CLK / 64 / TMR_TOP)], an [unsigned long]. *)
Definition PPS_CNT : Z := to_u32 (F_CLK c) / 64 / to_u32 (TMR_TOP c).

(** [(PPS_CNT * 10 / 100)] *)
Definition PPS_DLY : Z := to_u32 (PPS_CNT * 10) / 100.

(** [volatile uint16_t cnt=0;] *)
Definition cnt_initial : Z := 0.

(** [void pps_out(void)]; the comparison is made in [unsigned long]. *)
Definition pps_out : action :=
  assign_cnt (fun s => to_u16 (cnt s + 1)) ;;
  when (fun s => cnt s =? PPS_CNT)
    (assign_cnt (fun _ => 0) ;;
     IO_SET PPS_PIN).

(** The body of [while(1)] in [main]. *)
Definition main_loop_body : action :=
  when (fun s => cnt s =? PPS_DLY) (IO_CLR PPS_PIN).

End Engine.

Section Setup.

Variable c : config.

(** Of the timer driver's header and of the device layer, as for the
    down-counter program. *)
Variable TMR0_PSMASK : Z.
Variable selector : tmr0_ps -> Z.
Variable mcu_init : action.

(** The [switch (ps)] of [pps_init]: five cases and no default. *)
Definition set_period (ps : Z) : action :=
  if ps =? to_u32 (selector TMR0_PS1x)
  then tmr0a_setpr (to_u32 (F_CLK c) / 1 / PPS_CNT c)
  else if ps =? to_u32 (selector TMR0_PS8x)
  then tmr0a_setpr (to_u32 (F_CLK c) / 8 / PPS_CNT c)
  else if ps =? to_u32 (selector TMR0_PS64x)
  then tmr0a_setpr (to_u32 (F_CLK c) / 64 / PPS_CNT c)
  else if ps =? to_u32 (selector TMR0_PS256x)
  then tmr0a_setpr (to_u32 (F_CLK c) / 256 / PPS_CNT c)
  else if ps =? to_u32 (selector TMR0_PS1024x)
  then tmr0a_setpr (to_u32 (F_CLK c) / 1024 / PPS_CNT c)
  else skip.

(** [void pps_init(uint32_t ps)] of the up-counter program; [pps_out]
    is the handler of this program. *)
Definition pps_init (ps : Z) : action :=
  let ps := to_u32 ps in
  IO_CLR PPS_PIN ;;
  IO_OUT PPS_PIN ;;
  let ps := Z.land ps (to_u32 TMR0_PSMASK) in
  tmr0_init ps ;;
  set_period ps ;;
  tmr0a_act Pps_out.

(** [main] up to its loop; [PPS_PS] is [TMR0_PS64x]. *)
Definition main_setup : action :=
  mcu_init ;; pps_init (selector TMR0_PS64x) ;; ei.

(** One timer period: the handler, then the loop of [main]. *)
Definition period : action := pps_out c ;; main_loop_body c.

End Setup.

End UpCounter.

(** ** The timer clock of [main.c] *)

(** [#if PS_FUSE == 8] [F_CLK] is [(F_OSC/8)], [#else] it is
    [(F_OSC/1)]. *)
Definition F_CLK (c : config) : Z :=
  if Cpp.truth (Cpp.eq (Cpp.int_lit (PS_FUSE c)) (Cpp.int_lit 8))
  then F_OSC c / 8
  else F_OSC c / 1.

(** ** Vocabulary of the properties *)

(** The right-hand side of the factorization identity, in exact
    integers. *)
Definition exact_product (c : config) : Z :=
  PS_FUSE c * PS_TMR c * TMR_TOP c * ISR_CNT c.

(** The widths of the data model: a 32-bit oscillator frequency and
    factors of at most 16 bits. *)
Definition data_model_widths (c : config) : Prop :=
  0 <= F_OSC c < 2 ^ 32
  /\ 0 <= PS_FUSE c < 2 ^ 16
  /\ 0 <= PS_TMR c < 2 ^ 16
  /\ 0 <= TMR_TOP c < 2 ^ 16
  /\ 0 <= ISR_CNT c < 2 ^ 16.

(** A repeat count the 16-bit counter holds, and a duty count strictly
    inside the period. *)
Definition valid_count (c : config) : Prop := 1 <= ISR_CNT c <= 65535.
Definition valid_duty (c : config) : Prop := 0 < PPS_DC c < ISR_CNT c.

(** The counter is somewhere in its period. *)
Definition in_period (c : config) (s : mcu) : Prop := 1 <= cnt s <= ISR_CNT c.

(** The calls, out of the next [n], that drive the pin high when [r]
    calls of the current period have been made. *)
Definition boundary_pattern (c : config) (r : Z) (n : nat) : list bool :=
  map (fun i => (Z.of_nat i + 1 + r) mod ISR_CNT c =? 0) (seq 0 n).

(** A state in which the timer calls [pps_out]. *)
Definition running (s : mcu) : Prop :=
  tmr0_handler s = Some Pps_out /\ interrupts_enabled s = true.

(** The controller when the program starts: [cnt] holds its
    initialiser, the registers are clear. *)
Definition power_on (c : config) : mcu :=
  mk_mcu (cnt_initial c) 0 0 0 0 None false.

(** The same for the up-counter program. *)
Definition power_on_up : mcu :=
  mk_mcu UpCounter.cnt_initial 0 0 0 0 None false.

(** The oscillator of the file with the reload value 250 of the
    up-counter program: 8 * 8 * 250 * 1215 = 19440000. *)
Definition count_1215 : config := mk_config 19440000 8 8 250 1215 10.

(** The constants of the file with a fuse divider of [2^61 + 8], beyond
    the widths of the data model. *)
Definition fuse_beyond_widths : config :=
  mk_config 19440000 (2 ^ 61 + 8) 8 243 1250 10.

(** A configuration whose reload value is below the recommended floor
    and whose factorization is exact: 8 * 8 * 31 * 1250 = 2480000. *)
Definition reload_31 : config := mk_config 2480000 8 8 31 1250 10.

(** A configuration with the prescaler 1024 and an exact factorization:
    8 * 1024 * 240 * 10 = 19660800. *)
Definition prescaler_1024 : config := mk_config 19660800 8 1024 240 10 1.

(** The constants of the file with a duty count beyond the period. *)
Definition duty_2000 : config := set_PPS_DC 2000 configured.

(** A repeat count of the up-counter program that its counter holds. *)
Definition valid_count_up (u : UpCounter.config) : Prop :=
  1 <= UpCounter.PPS_CNT u <= 65535.

(** The prescaler values the chain of [main.c] selects a setting for. *)
Definition selectable (ps_tmr : Z) : Prop :=
  ps_tmr = 1 \/ ps_tmr = 8 \/ ps_tmr = 64 \/ ps_tmr = 256.

(** How many calls of the down-counter handler it takes to reach the
    reload from a counter value [v]. *)
Definition calls_to_reload (v : Z) : nat := Z.to_nat ((v - 1) mod 2 ^ 16 + 1).

(** The clock-select codes of timer 0 and their mask, used as sample
    values for the driver's constants. *)
Definition sample_selector (ps : tmr0_ps) : Z :=
  match ps with
  | TMR0_PS1x => 1
  | TMR0_PS8x => 2
  | TMR0_PS64x => 3
  | TMR0_PS256x => 4
  | TMR0_PS1024x => 5
  end.

Definition sample_mask : Z := 7.

(** What neither the handler nor the loop writes. *)
Definition same_frame (s s' : mcu) : Prop :=
  Z.ldiff (PORTB s') PPS_PIN = Z.ldiff (PORTB s) PPS_PIN
  /\ DDRB s' = DDRB s
  /\ tmr0_prescaler s' = tmr0_prescaler s
  /\ tmr0_period s' = tmr0_period s
  /\ tmr0_handler s' = tmr0_handler s
  /\ interrupts_enabled s' = interrupts_enabled s.

(** The up-counter program's engine started: the counter at its
    initialiser and the pin low. *)
Definition started_up (s : mcu) : Prop :=
  cnt s = UpCounter.cnt_initial /\ pin_high s = false /\ pin_low s = true.

(** The state with the pin driven low. *)
Definition cleared (s : mcu) : mcu :=
  with_PORTB (Z.ldiff (PORTB s) PPS_PIN) s.

(** A call of the handler followed by [k + 1] passes of the loop. *)
Definition polled_call (k : nat) : list event := Invoke :: repeat Poll (S k).

(** What follows a rising edge when the loop keeps up with the timer:
    [p0] passes of the loop, then one call of the handler for every
    entry of [ks], each with at least one pass of the loop behind it. *)
Definition polled_window (p0 : nat) (ks : list nat) : list event :=
  repeat Poll p0 ++ concat (map polled_call ks).

(** The falling edges of the pin over a schedule: the steps that find
    the pin high and leave it otherwise. *)
Fixpoint falling_edges (c : config) (l : list event) (s : mcu) : nat :=
  match l with
  | [] => 0%nat
  | e :: rest =>
      let s' := state_after (step c e) s in
      ((if pin_high s && negb (pin_high s') then 1 else 0)
       + falling_edges c rest s')%nat
  end.

(** The state right after the handler has driven the pin high, at the
    constants of the file. *)
Definition after_rising_edge : mcu :=
  state_after (pps_out configured) (with_cnt 1 (power_on configured)).

(** An oscillator frequency and a repeat count of zero. *)
Definition zero_oscillator : config := mk_config 0 8 8 243 0 10.

(** A fuse divider of 2 with an exact factorization:
    2 * 8 * 243 * 5000 = 19440000. *)
Definition fuse_2 : config := mk_config 19440000 2 8 243 5000 10.

(** The constants of the file with a duty count of zero. *)
Definition duty_0 : config := set_PPS_DC 0 configured.

(** * Properties *)

(** ** Preprocessor arithmetic *)

Module CppFacts.

Import Cpp.

Lemma wrap_unsigned_small z : fits_unsigned z -> wrap_unsigned z = z.
Proof.
  unfold fits_unsigned, wrap_unsigned, precision. intros H.
  apply Z.mod_small. lia.
Qed.

Lemma wrap_signed_small z : fits_signed z -> wrap_signed z = z.
Proof.
  unfold fits_signed, wrap_signed, precision. intros H.
  change (64 - 1) with 63.
  rewrite Z.mod_small; lia.
Qed.

Lemma wrap_unsigned_idem z : wrap_unsigned (wrap_unsigned z) = wrap_unsigned z.
Proof. unfold wrap_unsigned. apply Z.mod_mod. discriminate. Qed.

Lemma wrap_unsigned_signed z : wrap_unsigned (wrap_signed z) = wrap_unsigned z.
Proof.
  unfold wrap_unsigned, wrap_signed.
  rewrite Zminus_mod_idemp_l. f_equal. lia.
Qed.

(** [wrap_signed] looks at its argument modulo [2^64] only. *)
Lemma wrap_signed_congr x y :
  wrap_unsigned x = wrap_unsigned y -> wrap_signed x = wrap_signed y.
Proof.
  unfold wrap_unsigned, wrap_signed. intros H.
  rewrite <- (Zplus_mod_idemp_l x), <- (Zplus_mod_idemp_l y), H.
  reflexivity.
Qed.

Lemma wrap_signed_idem z : wrap_signed (wrap_signed z) = wrap_signed z.
Proof. apply wrap_signed_congr, wrap_unsigned_signed. Qed.

Lemma wrap_signed_mul x y :
  wrap_signed (wrap_signed x * wrap_signed y) = wrap_signed (x * y).
Proof.
  apply wrap_signed_congr. unfold wrap_unsigned.
  rewrite Z.mul_mod by discriminate.
  change (wrap_signed x mod 2 ^ precision) with (wrap_unsigned (wrap_signed x)).
  change (wrap_signed y mod 2 ^ precision) with (wrap_unsigned (wrap_signed y)).
  rewrite !wrap_unsigned_signed. unfold wrap_unsigned.
  rewrite <- Z.mul_mod by discriminate. reflexivity.
Qed.

(** A product of signed numbers is the exact product, wrapped. *)
Lemma mul_signed a b :
  unsignedp a = false -> unsignedp b = false ->
  mul a b = mk_num (wrap_signed (value a * value b)) false.
Proof.
  destruct a as [x ux], b as [y uy]; simpl. intros -> ->.
  unfold mul, arith; simpl. now rewrite wrap_signed_mul.
Qed.

Lemma product_of_constants f p t n :
  mul (mul (mul (int_lit f) (int_lit p)) (int_lit t)) (int_lit n)
  = mk_num (wrap_signed (f * p * t * n)) false.
Proof.
  unfold int_lit.
  rewrite (mul_signed (mk_num (wrap_signed f) false)) by reflexivity.
  cbn [value]. rewrite wrap_signed_mul.
  rewrite (mul_signed (mk_num (wrap_signed (f * p)) false)) by reflexivity.
  cbn [value]. rewrite wrap_signed_mul.
  rewrite mul_signed by reflexivity.
  cbn [value]. rewrite wrap_signed_mul. reflexivity.
Qed.

(** [a > b] on constants that fit [intmax_t] is the comparison of the
    integers. *)
Lemma gt_constants x y :
  fits_signed x -> fits_signed y ->
  truth (gt (int_lit x) (int_lit y)) = (y <? x).
Proof.
  intros Hx Hy. unfold gt, compare, int_lit, truth; cbn.
  rewrite !wrap_signed_idem, !wrap_signed_small by assumption.
  rewrite Z.gtb_ltb. now destruct (y <? x).
Qed.

Lemma eq_constants x y :
  fits_signed x -> fits_signed y ->
  truth (eq (int_lit x) (int_lit y)) = (x =? y).
Proof.
  intros Hx Hy. unfold eq, compare, int_lit, truth; cbn.
  rewrite !wrap_signed_idem, !wrap_signed_small by assumption.
  now destruct (x =? y).
Qed.

(** [F_OSC != PS_FUSE * PS_TMR * TMR_TOP * ISR_CNT] compares the two
    sides modulo [2^64]. *)
Lemma ne_product osc f p t n :
  truth (ne (ulong_lit osc)
           (mul (mul (mul (int_lit f) (int_lit p)) (int_lit t)) (int_lit n)))
  = negb (osc mod modulus =? (f * p * t * n) mod modulus).
Proof.
  rewrite product_of_constants.
  unfold ne, compare, ulong_lit, truth; cbn [value unsignedp orb norm].
  rewrite wrap_unsigned_idem, wrap_unsigned_signed.
  unfold wrap_unsigned, modulus.
  now destruct (osc mod 2 ^ precision =? (f * p * t * n) mod 2 ^ precision).
Qed.

End CppFacts.

(** ** The validator *)

Section ValidatorFacts.

Import Cpp CppFacts.

(** A check made of one [#if] and one [#error]. *)
Lemma single_check v d :
  chain_diagnostics (if_chain [(Some v, Error d)] None)
  = if Cpp.truth v then [d] else [].
Proof. unfold chain_diagnostics; simpl. now destruct (Cpp.truth v). Qed.

Lemma factorization_diagnostics c :
  chain_diagnostics (factorization_check c)
  = if F_OSC c mod modulus
       =? (PS_FUSE c * PS_TMR c * TMR_TOP c * ISR_CNT c) mod modulus
    then [] else [FOscNotDivisible].
Proof.
  unfold factorization_check. rewrite single_check, ne_product.
  now destruct (_ =? _).
Qed.

Lemma tmr_top_diagnostics c :
  fits_signed (TMR_TOP c) ->
  chain_diagnostics (tmr_top_check c)
  = if 255 <? TMR_TOP c then [TmrTopTooLarge] else [].
Proof.
  intros H. unfold tmr_top_check.
  rewrite single_check, gt_constants; [reflexivity | assumption |].
  unfold fits_signed; lia.
Qed.

Lemma isr_cnt_diagnostics c :
  fits_signed (ISR_CNT c) ->
  chain_diagnostics (isr_cnt_check c)
  = if 65535 <? ISR_CNT c then [IsrCntTooLarge] else [].
Proof.
  intros H. unfold isr_cnt_check. rewrite single_check.
  change (Cpp.sub (Cpp.int_lit 65536) (Cpp.int_lit 1)) with (Cpp.int_lit 65535).
  rewrite gt_constants; [reflexivity | assumption |].
  unfold fits_signed; lia.
Qed.

(** The last check compares [0] with [ISR_CNT]; [PPS_DC] is not read. *)
Lemma pps_dc_diagnostics c :
  fits_signed (ISR_CNT c) ->
  chain_diagnostics (pps_dc_check c)
  = if ISR_CNT c <? 0 then [PpsDcTooBig] else [].
Proof.
  intros H. unfold pps_dc_check. rewrite single_check.
  change Cpp.undefined_identifier with (Cpp.int_lit 0).
  rewrite gt_constants; [reflexivity | | assumption].
  unfold fits_signed; lia.
Qed.

(** The prescaler chain, case by case. *)
Lemma prescaler_chain_cases c :
  fits_signed (PS_TMR c) ->
  prescaler_chain c =
    if PS_TMR c =? 1 then (Some (Define_PPS_PS TMR0_PS1x), [])
    else if PS_TMR c =? 8 then (Some (Define_PPS_PS TMR0_PS8x), [])
    else if PS_TMR c =? 64 then (Some (Define_PPS_PS TMR0_PS64x), [])
    else if PS_TMR c =? 256 then (Some (Define_PPS_PS TMR0_PS256x), [])
    else (Some (Error InvalidPsTmr), [ElifWithNoExpression]).
Proof.
  intros H. unfold prescaler_chain. cbn [if_chain].
  rewrite !eq_constants by (assumption || (unfold fits_signed; lia)).
  repeat (destruct (PS_TMR c =? _); [reflexivity |]). reflexivity.
Qed.

Lemma in_validate d c :
  In d (validate c) <->
    In d (chain_diagnostics (prescaler_chain c))
    \/ In d (chain_diagnostics (factorization_check c))
    \/ In d (chain_diagnostics (tmr_top_check c))
    \/ In d (chain_diagnostics (isr_cnt_check c))
    \/ In d (chain_diagnostics (pps_dc_check c)).
Proof. unfold validate. rewrite !in_app_iff. tauto. Qed.

(** The prescaler chain reports nothing but its own two messages. *)
Lemma prescaler_chain_reports d c :
  In d (chain_diagnostics (prescaler_chain c)) ->
  d = ElifWithNoExpression \/ d = InvalidPsTmr.
Proof.
  unfold prescaler_chain, chain_diagnostics. cbn [if_chain].
  repeat (destruct (Cpp.truth _); [simpl; tauto |]).
  simpl. intuition auto.
Qed.

End ValidatorFacts.

Section ValidatorClaims.

Import Cpp CppFacts.

Lemma single_check_reports v d d' :
  In d' (chain_diagnostics (if_chain [(Some v, Error d)] None)) -> d' = d.
Proof.
  rewrite single_check. destruct (Cpp.truth v); simpl; intuition auto.
Qed.

Lemma reported_not_accepted d c : In d (validate c) -> accepted c = false.
Proof. unfold accepted. destruct (validate c); simpl; tauto. Qed.

Lemma factorization_reported c :
  In FOscNotDivisible (validate c)
  <-> F_OSC c mod modulus <> exact_product c mod modulus.
Proof.
  rewrite in_validate, factorization_diagnostics. fold (exact_product c).
  destruct (Z.eqb_spec (F_OSC c mod modulus) (exact_product c mod modulus))
    as [E | E]; split.
  - intros [H | [H | [H | [H | H]]]].
    + apply prescaler_chain_reports in H. destruct H; discriminate.
    + destruct H.
    + apply single_check_reports in H. discriminate.
    + apply single_check_reports in H. discriminate.
    + apply single_check_reports in H. discriminate.
  - intros H. contradiction.
  - intros _. exact E.
  - intros _. right; left. simpl. auto.
Qed.

Lemma exact_product_width c :
  data_model_widths c -> 0 <= exact_product c < 2 ^ 64.
Proof.
  unfold data_model_widths, exact_product.
  intros (_ & Hf & Hp & Ht & Hn).
  assert (0 <= PS_FUSE c * PS_TMR c < 2 ^ 32) by nia.
  assert (0 <= PS_FUSE c * PS_TMR c * TMR_TOP c < 2 ^ 48) by nia.
  nia.
Qed.

(** C1.  For constants within the widths of the data model, the build
    reports the factorization mismatch exactly when the oscillator
    frequency differs from the exact product of the four factors, and
    then the configuration is not accepted; with [TMR_TOP] changed from
    243 to 244 the mismatch is reported. *)
Theorem factorization_mismatch_rejected (c : config) :
  data_model_widths c ->
  (F_OSC c <> exact_product c ->
     In FOscNotDivisible (validate c) /\ accepted c = false)
  /\ (F_OSC c = exact_product c -> ~ In FOscNotDivisible (validate c))
  /\ In FOscNotDivisible (validate (set_TMR_TOP 244 configured)).
Proof.
  intros Hw. pose proof (exact_product_width c Hw) as Hp.
  destruct Hw as (Ho & _).
  assert (Hmod : F_OSC c mod modulus = F_OSC c).
  { apply Z.mod_small. unfold modulus, precision. lia. }
  assert (Hmod' : exact_product c mod modulus = exact_product c).
  { apply Z.mod_small. unfold modulus, precision. lia. }
  assert (Hr : F_OSC c <> exact_product c -> In FOscNotDivisible (validate c)).
  { intros H. apply factorization_reported. congruence. }
  refine (conj _ (conj _ _)).
  - intros H. refine (conj (Hr H) _).
    exact (reported_not_accepted _ _ (Hr H)).
  - rewrite factorization_reported. congruence.
  - vm_compute. auto.
Qed.

(** Beyond the widths the comparison can hold modulo [2^64] only: the
    product with [PS_FUSE = 2^61 + 8] wraps around to 19440000. *)
Lemma factorization_beyond_widths :
  F_OSC fuse_beyond_widths <> exact_product fuse_beyond_widths
  /\ validate fuse_beyond_widths = [].
Proof. vm_compute. split; [discriminate | reflexivity]. Qed.

Lemma factorization_mismatch_rejected_witness :
  In FOscNotDivisible (validate (set_TMR_TOP 244 configured))
  /\ accepted (set_TMR_TOP 244 configured) = false.
Proof.
  assert (Hw : data_model_widths (set_TMR_TOP 244 configured)).
  { unfold data_model_widths; simpl; lia. }
  assert (Hne : F_OSC (set_TMR_TOP 244 configured)
                <> exact_product (set_TMR_TOP 244 configured)).
  { vm_compute. discriminate. }
  exact (proj1 (factorization_mismatch_rejected _ Hw) Hne).
Defined.

(** C5.  With the constants of the file and [PPS_DC] set to 2000, beyond
    [ISR_CNT = 1250], the build reports nothing: the duty count is not
    checked. *)
Theorem duty_count_not_checked :
  ISR_CNT duty_2000 <= PPS_DC duty_2000
  /\ validate duty_2000 = []
  /\ accepted duty_2000 = true.
Proof. vm_compute. intuition discriminate. Qed.

(** X5.  The duty check never depends on [PPS_DC]: it fires on a negative
    [ISR_CNT] only. *)
Lemma duty_check_ignores_duty c :
  fits_signed (ISR_CNT c) ->
  (In PpsDcTooBig (validate c) <-> ISR_CNT c < 0).
Proof.
  intros H. rewrite in_validate, pps_dc_diagnostics by assumption.
  destruct (Z.ltb_spec (ISR_CNT c) 0); split; try lia.
  - intros _. do 4 right. simpl. auto.
  - intros [F | [F | [F | [F | F]]]].
    + apply prescaler_chain_reports in F. destruct F; discriminate.
    + apply single_check_reports in F. discriminate.
    + apply single_check_reports in F. discriminate.
    + apply single_check_reports in F. discriminate.
    + destruct F.
Qed.

(** C6.  With the prescaler 1024 the chain reaches the [#elif] that has
    no expression: the preprocessor reports it, the group that would
    define [PPS_PS] is not taken and the [#error] of the [#else] group
    fires. *)
Theorem prescaler_1024_not_selected :
  prescaler_chain prescaler_1024
    = (Some (Error InvalidPsTmr), [ElifWithNoExpression])
  /\ PPS_PS prescaler_1024 = None
  /\ validate prescaler_1024 = [ElifWithNoExpression; InvalidPsTmr]
  /\ accepted prescaler_1024 = false.
Proof. vm_compute. intuition reflexivity. Qed.

(** X3.  The prescaler mapping: 1, 8, 64 and 256 select their setting and
    report nothing; every other value is reported as invalid. *)
Lemma prescaler_mapping c :
  fits_signed (PS_TMR c) ->
  (PS_TMR c = 1 -> PPS_PS c = Some TMR0_PS1x /\ snd (prescaler_chain c) = [])
  /\ (PS_TMR c = 8 -> PPS_PS c = Some TMR0_PS8x /\ snd (prescaler_chain c) = [])
  /\ (PS_TMR c = 64 -> PPS_PS c = Some TMR0_PS64x /\ snd (prescaler_chain c) = [])
  /\ (PS_TMR c = 256 -> PPS_PS c = Some TMR0_PS256x /\ snd (prescaler_chain c) = [])
  /\ (PS_TMR c <> 1 -> PS_TMR c <> 8 -> PS_TMR c <> 64 -> PS_TMR c <> 256 ->
      PPS_PS c = None /\ In InvalidPsTmr (validate c)).
Proof.
  intros H. unfold PPS_PS. rewrite in_validate.
  rewrite (prescaler_chain_cases c H).
  refine (conj _ (conj _ (conj _ (conj _ _))));
    try (intros ->; split; reflexivity).
  intros H1 H8 H64 H256.
  apply Z.eqb_neq in H1, H8, H64, H256. rewrite H1, H8, H64, H256.
  split; [reflexivity |]. left. simpl. auto.
Qed.

(** C7, as the claim states it: a reload value of 31 is outside
    [32, 255] and a repeat count of 0 is outside [1, 65535]; the first
    is accepted with an oscillator of 2480000, the second with an
    oscillator of 0. *)
Lemma range_floors_accepted :
  (TMR_TOP reload_31 < 32 \/ 255 < TMR_TOP reload_31)
  /\ accepted reload_31 = true
  /\ (ISR_CNT zero_oscillator < 1 \/ 65535 < ISR_CNT zero_oscillator)
  /\ accepted zero_oscillator = true.
Proof. vm_compute. intuition discriminate. Qed.

(** C7, amended.  A reload value above 255 is reported and the
    configuration not accepted.  A repeat count outside [1, 65535] is
    not accepted either: above 65535 it is reported as too large; below
    1 the configuration is rejected as long as the oscillator frequency
    is not 0 modulo [2^64], at 0 because the product is 0 and the
    factorization fails, below 0 because the last check fires. *)
Theorem range_checks_reject (c : config) :
  fits_signed (TMR_TOP c) -> fits_signed (ISR_CNT c) ->
  (255 < TMR_TOP c -> In TmrTopTooLarge (validate c) /\ accepted c = false)
  /\ (65535 < ISR_CNT c -> In IsrCntTooLarge (validate c) /\ accepted c = false)
  /\ (ISR_CNT c < 1 -> F_OSC c mod 2 ^ 64 <> 0 -> accepted c = false).
Proof.
  intros Ht Hn.
  assert (T : 255 < TMR_TOP c -> In TmrTopTooLarge (validate c)).
  { intros H. apply in_validate. right; right; left.
    rewrite tmr_top_diagnostics by assumption.
    destruct (Z.ltb_spec 255 (TMR_TOP c)); [simpl; auto | lia]. }
  assert (I : 65535 < ISR_CNT c -> In IsrCntTooLarge (validate c)).
  { intros H. apply in_validate. right; right; right; left.
    rewrite isr_cnt_diagnostics by assumption.
    destruct (Z.ltb_spec 65535 (ISR_CNT c)); [simpl; auto | lia]. }
  assert (N : ISR_CNT c < 0 -> In PpsDcTooBig (validate c)).
  { intros H. apply in_validate. do 4 right.
    rewrite pps_dc_diagnostics by assumption.
    destruct (Z.ltb_spec (ISR_CNT c) 0); [simpl; auto | lia]. }
  assert (Z0 : F_OSC c mod 2 ^ 64 <> 0 -> ISR_CNT c = 0 ->
               In FOscNotDivisible (validate c)).
  { intros Ho E. apply factorization_reported.
    unfold exact_product. rewrite E, Z.mul_0_r.
    change modulus with (2 ^ 64). rewrite Z.mod_0_l by discriminate.
    exact Ho. }
  refine (conj _ (conj _ _)).
  - intros H. refine (conj (T H) _). exact (reported_not_accepted _ _ (T H)).
  - intros H. refine (conj (I H) _). exact (reported_not_accepted _ _ (I H)).
  - intros Hlow Ho.
    destruct (Z.eq_dec (ISR_CNT c) 0) as [E | E].
    + exact (reported_not_accepted _ _ (Z0 Ho E)).
    + apply (reported_not_accepted PpsDcTooBig). apply N. lia.
Qed.

Lemma range_checks_reject_witness :
  accepted (mk_config 19440000 8 8 243 0 10) = false.
Proof.
  assert (Ht : fits_signed (TMR_TOP (mk_config 19440000 8 8 243 0 10))).
  { unfold fits_signed; simpl; lia. }
  assert (Hn : fits_signed (ISR_CNT (mk_config 19440000 8 8 243 0 10))).
  { unfold fits_signed; simpl; lia. }
  assert (Ho : F_OSC (mk_config 19440000 8 8 243 0 10) mod 2 ^ 64 <> 0).
  { vm_compute. discriminate. }
  assert (Hl : ISR_CNT (mk_config 19440000 8 8 243 0 10) < 1).
  { simpl. lia. }
  exact (proj2 (proj2 (range_checks_reject _ Ht Hn)) Hl Ho).
Defined.

End ValidatorClaims.

(** ** Actions and traces *)

Section ActionFacts.

Lemma state_after_then a b s :
  state_after (a ;; b) s = state_after b (state_after a s).
Proof.
  unfold state_after, and_then. destruct (a s) as [s1 t1]; simpl.
  now destruct (b s1).
Qed.

Lemma trace_of_then a b s :
  trace_of (a ;; b) s = trace_of a s ++ trace_of b (state_after a s).
Proof.
  unfold trace_of, state_after, and_then. destruct (a s) as [s1 t1]; simpl.
  now destruct (b s1).
Qed.

(** The last of [S n] repetitions. *)
Lemma state_after_times_last a n :
  forall s,
    state_after (times (S n) a) s = state_after a (state_after (times n a) s).
Proof.
  induction n as [| n IH]; intros s.
  - cbn [times]. now rewrite state_after_then.
  - change (times (S (S n)) a) with (a ;; times (S n) a).
    rewrite state_after_then, IH.
    change (times (S n) a) with (a ;; times n a).
    now rewrite state_after_then.
Qed.

Lemma trace_of_times_last a n :
  forall s,
    trace_of (times (S n) a) s
    = trace_of (times n a) s ++ trace_of a (state_after (times n a) s).
Proof.
  induction n as [| n IH]; intros s.
  - cbn [times]. rewrite trace_of_then. cbn. now rewrite app_nil_r.
  - change (times (S (S n)) a) with (a ;; times (S n) a).
    rewrite trace_of_then, IH.
    change (times (S n) a) with (a ;; times n a).
    now rewrite trace_of_then, state_after_then, app_assoc.
Qed.

Lemma rising_app t1 t2 : rising (t1 ++ t2) = (rising t1 + rising t2)%nat.
Proof. unfold rising. now rewrite filter_app, length_app. Qed.

Lemma falling_app t1 t2 : falling (t1 ++ t2) = (falling t1 + falling t2)%nat.
Proof. unfold falling. now rewrite filter_app, length_app. Qed.

Lemma to_u16_small z : 0 <= z < 65536 -> to_u16 z = z.
Proof. intros H. unfold to_u16. apply Z.mod_small. lia. Qed.

(** The pins of a mask read back high after [IO_SET] and low after
    [IO_CLR]. *)
Lemma land_lor_mask p m : Z.land (Z.lor p m) m = m.
Proof.
  apply Z.bits_inj'. intros n _.
  rewrite Z.land_spec, Z.lor_spec.
  now destruct (Z.testbit p n), (Z.testbit m n).
Qed.

Lemma land_ldiff_mask p m : Z.land (Z.ldiff p m) m = 0.
Proof.
  apply Z.bits_inj'. intros n _.
  rewrite Z.land_spec, Z.ldiff_spec, Z.bits_0.
  now destruct (Z.testbit p n), (Z.testbit m n).
Qed.

Lemma ldiff_ldiff_mask p m : Z.ldiff (Z.ldiff p m) m = Z.ldiff p m.
Proof.
  apply Z.bits_inj'. intros n _. rewrite !Z.ldiff_spec.
  now destruct (Z.testbit p n), (Z.testbit m n).
Qed.

(** Counting from [r] to [r + 1] modulo [N]. *)
Lemma mod_succ n N :
  0 < N ->
  (n + 1) mod N = if n mod N + 1 =? N then 0 else n mod N + 1.
Proof.
  intros HN. rewrite <- Zplus_mod_idemp_l.
  pose proof (Z.mod_pos_bound n N HN) as Hb.
  destruct (Z.eqb_spec (n mod N + 1) N) as [E | E].
  - rewrite E. apply Z_mod_same_full.
  - apply Z.mod_small. lia.
Qed.

End ActionFacts.

(** ** The handler and the loop *)

Section EngineFacts.

Variable c : config.

Local Arguments to_u16 : simpl never.

(** The handler, by the value the decrement leaves. *)
Lemma pps_out_cases s :
  pps_out c s =
    if to_u16 (cnt s - 1) =? 0
    then (with_PORTB (Z.lor (PORTB s) PPS_PIN) (with_cnt (to_u16 (ISR_CNT c)) s),
          [DriveHigh PPS_PIN])
    else (with_cnt (to_u16 (cnt s - 1)) s, []).
Proof.
  unfold pps_out, and_then, assign_cnt, when, IO_SET, skip. cbn.
  destruct (to_u16 (cnt s - 1) =? 0); reflexivity.
Qed.

(** The loop, by the value it reads. *)
Lemma main_loop_body_cases s :
  main_loop_body c s =
    if cnt s =? duty_threshold c
    then (with_PORTB (Z.ldiff (PORTB s) PPS_PIN) s, [DriveLow PPS_PIN])
    else (s, []).
Proof. reflexivity. Qed.

(** The loop does not write the counter and never drives the pin
    high. *)
Lemma main_loop_body_cnt s : cnt (state_after (main_loop_body c) s) = cnt s.
Proof.
  unfold state_after. rewrite main_loop_body_cases.
  now destruct (cnt s =? duty_threshold c).
Qed.

Lemma main_loop_body_rising s : rising (trace_of (main_loop_body c) s) = 0%nat.
Proof.
  unfold trace_of. rewrite main_loop_body_cases.
  now destruct (cnt s =? duty_threshold c).
Qed.

(** A second pass of the loop, with no call of the handler in between,
    leaves the state as the first one left it. *)
Lemma main_loop_body_idempotent s :
  state_after (main_loop_body c) (state_after (main_loop_body c) s)
  = state_after (main_loop_body c) s.
Proof.
  unfold state_after. rewrite (main_loop_body_cases s).
  destruct (cnt s =? duty_threshold c) eqn:E; cbn [fst].
  - rewrite main_loop_body_cases. cbn [cnt with_PORTB]. rewrite E.
    unfold with_PORTB.
    cbn [fst cnt PORTB DDRB tmr0_prescaler tmr0_period tmr0_handler
         interrupts_enabled].
    now rewrite ldiff_ldiff_mask.
  - rewrite main_loop_body_cases, E. reflexivity.
Qed.

(** X15.  Any number of passes of the loop in a row, with no call of the
    handler in between, leave the state as a single pass leaves it. *)
Lemma main_loop_body_repeated k :
  forall s,
    state_after (times (S k) (main_loop_body c)) s
    = state_after (main_loop_body c) s.
Proof.
  induction k as [| k IH]; intros s.
  - cbn [times]. now rewrite state_after_then.
  - change (times (S (S k)) (main_loop_body c))
      with (main_loop_body c ;; times (S k) (main_loop_body c)).
    rewrite state_after_then, IH. apply main_loop_body_idempotent.
Qed.

Hypothesis count_ok : valid_count c.

Lemma reset_value : to_u16 (ISR_CNT c) = ISR_CNT c.
Proof. apply to_u16_small. unfold valid_count in count_ok. lia. Qed.

(** Within the period the decrement does not wrap, and the handler
    takes its branch exactly when it is entered with the counter at
    1. *)
Lemma pps_out_in_period s :
  in_period c s ->
  pps_out c s =
    if cnt s =? 1
    then (with_PORTB (Z.lor (PORTB s) PPS_PIN) (with_cnt (ISR_CNT c) s),
          [DriveHigh PPS_PIN])
    else (with_cnt (cnt s - 1) s, []).
Proof.
  unfold in_period, valid_count in *. intros H.
  rewrite pps_out_cases, reset_value.
  rewrite (to_u16_small (cnt s - 1)) by lia.
  destruct (Z.eqb_spec (cnt s - 1) 0), (Z.eqb_spec (cnt s) 1);
    try lia; reflexivity.
Qed.

Lemma pps_out_keeps_period s :
  in_period c s -> in_period c (state_after (pps_out c) s).
Proof.
  intros H. unfold state_after. rewrite pps_out_in_period by assumption.
  unfold in_period, valid_count in *.
  destruct (Z.eqb_spec (cnt s) 1); cbn; lia.
Qed.

Lemma main_loop_body_keeps_period s :
  in_period c s -> in_period c (state_after (main_loop_body c) s).
Proof. unfold in_period. now rewrite main_loop_body_cnt. Qed.

Lemma pps_init_cnt mask ps s :
  cnt (state_after (pps_init c mask ps) s) = ISR_CNT c.
Proof. unfold state_after. cbn. apply reset_value. Qed.

Lemma reachable_in_period mask s : reachable c mask s -> in_period c s.
Proof.
  induction 1 as [ps s | s _ IH | e s _ IH].
  - unfold in_period. unfold state_after. cbn. rewrite reset_value.
    unfold valid_count in count_ok. lia.
  - exact IH.
  - destruct e; cbn [step].
    + now apply pps_out_keeps_period.
    + now apply main_loop_body_keeps_period.
Qed.

End EngineFacts.

(** ** Counting over a schedule *)

Section ScheduleFacts.

Variable c : config.
Hypothesis count_ok : valid_count c.

Lemma pps_out_rising s :
  in_period c s ->
  rising (trace_of (pps_out c) s) = if cnt s =? 1 then 1%nat else 0%nat.
Proof.
  intros H. unfold trace_of. rewrite pps_out_in_period by assumption.
  now destruct (cnt s =? 1).
Qed.

Lemma pps_out_cnt s :
  in_period c s ->
  cnt (state_after (pps_out c) s) = if cnt s =? 1 then ISR_CNT c else cnt s - 1.
Proof.
  intros H. unfold state_after. rewrite pps_out_in_period by assumption.
  now destruct (cnt s =? 1).
Qed.

(** Where the counter stands and how many times the pin was driven
    high after a schedule with [k] calls of the handler. *)
Lemma run_counts l :
  forall s,
    in_period c s ->
    let k := Z.of_nat (invocations l) in
    cnt (state_after (run c l) s) = (cnt s - 1 - k) mod ISR_CNT c + 1
    /\ Z.of_nat (rising (trace_of (run c l) s))
       = (k + ISR_CNT c - cnt s) / ISR_CNT c.
Proof.
  assert (HN : 0 < ISR_CNT c) by (unfold valid_count in count_ok; lia).
  induction l as [| e l IH]; intros s Hs; cbv zeta.
  - unfold in_period in Hs. cbn. split.
    + rewrite Z.mod_small; lia.
    + rewrite Z.div_small; lia.
  - cbn [run]. rewrite state_after_then, trace_of_then, rising_app, Nat2Z.inj_add.
    destruct e; cbn [step].
    + pose proof (pps_out_keeps_period c count_ok s Hs) as Hs'.
      destruct (IH _ Hs') as [IHc IHr]. rewrite IHc, IHr.
      rewrite pps_out_rising, pps_out_cnt by assumption.
      unfold invocations. cbn [filter is_invoke length].
      fold (invocations l). rewrite Nat2Z.inj_succ.
      set (k := Z.of_nat (invocations l)).
      unfold in_period in Hs.
      destruct (Z.eqb_spec (cnt s) 1) as [E | E].
      * rewrite E. split.
        -- f_equal.
           replace (ISR_CNT c - 1 - k) with (1 - 1 - Z.succ k + 1 * ISR_CNT c) by lia.
           apply Z_mod_plus_full.
        -- replace (Z.succ k + ISR_CNT c - 1) with (k + 1 * ISR_CNT c) by lia.
           rewrite Z_div_plus_full by lia.
           replace (k + ISR_CNT c - ISR_CNT c) with k by lia.
           change (Z.of_nat 1) with 1. lia.
      * split.
        -- f_equal. f_equal. lia.
        -- change (Z.of_nat 0) with 0. rewrite Z.add_0_l. f_equal. lia.
    + pose proof (main_loop_body_keeps_period c s Hs) as Hs'.
      destruct (IH _ Hs') as [IHc IHr]. rewrite IHc, IHr.
      rewrite main_loop_body_rising, main_loop_body_cnt.
      unfold invocations. cbn [filter is_invoke].
      change (Z.of_nat 0) with 0. rewrite Z.add_0_l. split; reflexivity.
Qed.

End ScheduleFacts.

(** ** The counter and the handler *)

Section CounterClaims.

Variable c : config.
Variable TMR0_PSMASK : Z.

(** C10.  With a repeat count the counter holds, the counter is
    between 1 and [ISR_CNT] when the program starts and when [pps_init]
    returns; a call of [pps_out] and a pass of the loop keep it there,
    so every state reached after [pps_init] has it there; inside the
    handler the decrement does not wrap below zero, and the handler
    drives the pin high exactly when it is entered with the counter at
    1. *)
Theorem counter_stays_in_period :
  valid_count c ->
  1 <= cnt_initial c <= ISR_CNT c
  /\ (forall ps s, in_period c (state_after (pps_init c TMR0_PSMASK ps) s))
  /\ (forall s, in_period c s -> in_period c (state_after (pps_out c) s))
  /\ (forall s, in_period c s -> in_period c (state_after (main_loop_body c) s))
  /\ (forall s, reachable c TMR0_PSMASK s -> in_period c s)
  /\ (forall s, in_period c s ->
        0 <= cnt s - 1 /\ to_u16 (cnt s - 1) = cnt s - 1)
  /\ (forall s, in_period c s ->
        (drives_high (trace_of (pps_out c) s) = true <-> cnt s = 1)).
Proof.
  intros count_ok.
  assert (HN : 1 <= ISR_CNT c <= 65535) by exact count_ok.
  refine (conj _ (conj _ (conj _ (conj _ (conj _ (conj _ _)))))).
  - unfold cnt_initial. rewrite reset_value by assumption. lia.
  - intros ps s. unfold in_period. rewrite pps_init_cnt by assumption. lia.
  - apply pps_out_keeps_period; assumption.
  - apply main_loop_body_keeps_period.
  - apply reachable_in_period; assumption.
  - intros s Hs. unfold in_period in Hs. split; [lia |].
    apply to_u16_small. lia.
  - intros s Hs. unfold trace_of. rewrite pps_out_in_period by assumption.
    destruct (Z.eqb_spec (cnt s) 1); cbn; split; intros; try lia;
      try reflexivity; discriminate.
Qed.

Lemma pps_init_effects (ps : Z) (s : mcu) :
  valid_count c ->
  let s' := state_after (pps_init c TMR0_PSMASK ps) s in
  cnt s' = ISR_CNT c
  /\ pin_low s' = true
  /\ pin_high s' = false
  /\ pin_is_output s' = true
  /\ tmr0_handler s' = Some Pps_out
  /\ interrupts_enabled s' = interrupts_enabled s.
Proof.
  intros count_ok s'.
  refine (conj _ (conj _ (conj _ (conj _ (conj _ _))))); try reflexivity.
  - unfold s'. now rewrite pps_init_cnt.
  - unfold pin_low, s', state_after, pps_init, and_then, assign_cnt, IO_CLR, IO_OUT,
      tmr0_init, tmr0a_setpr, tmr0a_act.
    cbn [fst PORTB with_cnt with_PORTB with_DDRB with_tmr0_prescaler
         with_tmr0_period with_tmr0_handler].
    rewrite land_ldiff_mask. reflexivity.
  - unfold pin_high, s', state_after, pps_init, and_then, assign_cnt, IO_CLR, IO_OUT,
      tmr0_init, tmr0a_setpr, tmr0a_act.
    cbn [fst PORTB with_cnt with_PORTB with_DDRB with_tmr0_prescaler
         with_tmr0_period with_tmr0_handler].
    rewrite land_ldiff_mask. reflexivity.
  - unfold pin_is_output, s', state_after, pps_init, and_then, assign_cnt, IO_CLR,
      IO_OUT, tmr0_init, tmr0a_setpr, tmr0a_act.
    cbn [fst DDRB with_cnt with_PORTB with_DDRB with_tmr0_prescaler
         with_tmr0_period with_tmr0_handler].
    rewrite land_lor_mask. apply Z.eqb_refl.
Qed.

(** C8.  When [pps_init] returns the counter holds its starting value
    [ISR_CNT], the pin is low and an output, timer 0 has the masked
    prescaler and the period [TMR_TOP], [pps_out] is the installed
    handler, and the global interrupt flag is as it was: nothing in
    [pps_init] enables interrupts. *)
Theorem pps_init_postconditions (ps : Z) (s : mcu) :
  valid_count c ->
  let s' := state_after (pps_init c TMR0_PSMASK ps) s in
  let t := trace_of (pps_init c TMR0_PSMASK ps) s in
  cnt s' = cnt_initial c
  /\ cnt s' = ISR_CNT c
  /\ pin_low s' = true
  /\ pin_is_output s' = true
  /\ tmr0_prescaler s' = Z.land (to_u32 ps) (to_u32 TMR0_PSMASK)
  /\ tmr0_period s' = TMR_TOP c
  /\ tmr0_handler s' = Some Pps_out
  /\ interrupts_enabled s' = interrupts_enabled s
  /\ existsb is_enable_interrupts t = false
  /\ t = [DriveLow PPS_PIN; MakeOutput PPS_PIN;
          TimerConfigure (Z.land (to_u32 ps) (to_u32 TMR0_PSMASK));
          TimerSetPeriod (TMR_TOP c); TimerInstall Pps_out].
Proof.
  intros count_ok s' t.
  destruct (pps_init_effects ps s count_ok) as (Hc & Hl & _ & Ho & Hh & Hi).
  fold s' in Hc, Hl, Ho, Hh, Hi.
  refine (conj _ (conj Hc (conj Hl (conj Ho (conj _
            (conj _ (conj Hh (conj Hi (conj _ _))))))))); reflexivity.
Qed.

(** C2.  From any state reached after [pps_init], a schedule that calls
    the handler exactly [ISR_CNT] times, with passes of the loop
    anywhere in between, drives the pin high exactly once and leaves
    the counter where it was. *)
Theorem one_rising_edge_per_period (s : mcu) (l : list event) :
  valid_count c ->
  reachable c TMR0_PSMASK s ->
  Z.of_nat (invocations l) = ISR_CNT c ->
  rising (trace_of (run c l) s) = 1%nat
  /\ cnt (state_after (run c l) s) = cnt s.
Proof.
  intros count_ok Hr Hl.
  assert (HN : 1 <= ISR_CNT c <= 65535) by exact count_ok.
  pose proof (reachable_in_period c count_ok _ _ Hr) as Hs.
  destruct (run_counts c count_ok l s Hs) as [Hc Hn].
  rewrite Hl in Hc, Hn. unfold in_period in Hs. split.
  - apply Nat2Z.inj. rewrite Hn.
    replace (ISR_CNT c + ISR_CNT c - cnt s)
      with (ISR_CNT c - cnt s + 1 * ISR_CNT c) by lia.
    rewrite Z_div_plus_full, Z.div_small by lia. reflexivity.
  - rewrite Hc.
    replace (cnt s - 1 - ISR_CNT c)
      with (cnt s - 1 + (-1) * ISR_CNT c) by lia.
    rewrite Z_mod_plus_full, Z.mod_small; lia.
Qed.

End CounterClaims.

(** ** The duty window and the running engine *)

Section DutyFacts.

Variable c : config.
Hypothesis count_ok : valid_count c.
Hypothesis duty_ok : valid_duty c.

Lemma duty_threshold_valid : duty_threshold c = ISR_CNT c - PPS_DC c.
Proof.
  unfold duty_threshold, valid_count, valid_duty in *.
  destruct (fits_int (ISR_CNT c) && fits_int (PPS_DC c)); [| reflexivity].
  apply to_u16_small. lia.
Qed.

(** One call of the handler away from the end of the period, then the
    loop: the counter goes down by one, and the pin goes low when the
    counter arrives at the threshold. *)
Lemma handler_then_loop s :
  1 < cnt s <= ISR_CNT c ->
  let s' := state_after (pps_out c ;; main_loop_body c) s in
  let t := trace_of (pps_out c ;; main_loop_body c) s in
  cnt s' = cnt s - 1
  /\ tmr0_handler s' = tmr0_handler s
  /\ interrupts_enabled s' = interrupts_enabled s
  /\ rising t = 0%nat
  /\ if cnt s - 1 =? ISR_CNT c - PPS_DC c
     then pin_low s' = true /\ pin_high s' = false /\ falling t = 1%nat
     else pin_low s' = pin_low s /\ pin_high s' = pin_high s /\ falling t = 0%nat.
Proof.
  intros Hs s' t. unfold s', t, state_after, trace_of, and_then.
  rewrite pps_out_in_period by (assumption || (unfold in_period; lia)).
  destruct (Z.eqb_spec (cnt s) 1); [lia |].
  rewrite main_loop_body_cases, duty_threshold_valid. cbn [cnt with_cnt].
  destruct (cnt s - 1 =? ISR_CNT c - PPS_DC c).
  - cbn [fst snd app]. unfold pin_low, pin_high.
    cbn [PORTB with_PORTB]. rewrite land_ldiff_mask.
    repeat split.
  - cbn [fst snd app]. repeat split.
Qed.

(** The last call of the period, then the loop: the counter is
    reloaded and the pin is left high. *)
Lemma boundary_then_loop s :
  cnt s = 1 ->
  let s' := state_after (pps_out c ;; main_loop_body c) s in
  let t := trace_of (pps_out c ;; main_loop_body c) s in
  cnt s' = ISR_CNT c
  /\ tmr0_handler s' = tmr0_handler s
  /\ interrupts_enabled s' = interrupts_enabled s
  /\ pin_high s' = true /\ pin_low s' = false
  /\ rising t = 1%nat /\ falling t = 0%nat.
Proof.
  intros Hs s' t. unfold s', t, state_after, trace_of, and_then.
  unfold valid_count, valid_duty in *.
  rewrite pps_out_in_period by (assumption || (unfold in_period; lia)).
  rewrite Hs. cbn [Z.eqb Pos.eqb].
  rewrite main_loop_body_cases, duty_threshold_valid.
  cbn [cnt with_cnt with_PORTB].
  destruct (Z.eqb_spec (ISR_CNT c) (ISR_CNT c - PPS_DC c)); [lia |].
  cbn [fst snd app]. unfold pin_low, pin_high.
  cbn [PORTB with_PORTB]. rewrite land_lor_mask.
  repeat split.
Qed.

(** The loop right after a rising edge finds the counter away from the
    threshold. *)
Lemma loop_at_reload s :
  cnt s = ISR_CNT c -> main_loop_body c s = (s, []).
Proof.
  intros Hs. rewrite main_loop_body_cases, duty_threshold_valid, Hs.
  unfold valid_duty in duty_ok.
  destruct (Z.eqb_spec (ISR_CNT c) (ISR_CNT c - PPS_DC c)); [lia | reflexivity].
Qed.

Lemma duty_window_last j s :
  state_after (duty_window c (S j)) s
  = state_after (pps_out c ;; main_loop_body c) (state_after (duty_window c j) s)
  /\ trace_of (duty_window c (S j)) s
     = trace_of (duty_window c j) s
       ++ trace_of (pps_out c ;; main_loop_body c) (state_after (duty_window c j) s).
Proof.
  unfold duty_window.
  set (a := pps_out c ;; main_loop_body c).
  rewrite (state_after_then (main_loop_body c) (times (S j) a)).
  rewrite (state_after_then (main_loop_body c) (times j a)).
  rewrite (trace_of_then (main_loop_body c) (times (S j) a)).
  rewrite (trace_of_then (main_loop_body c) (times j a)).
  rewrite state_after_times_last, trace_of_times_last, app_assoc.
  split; reflexivity.
Qed.

(** The window, call by call: the pin stays high and nothing drives it
    low before the [PPS_DC]-th call; the pass of the loop after that
    call drives it low. *)
Lemma duty_window_progress s :
  cnt s = ISR_CNT c -> pin_high s = true ->
  forall j : nat,
    Z.of_nat j <= PPS_DC c ->
    let sj := state_after (duty_window c j) s in
    let tj := trace_of (duty_window c j) s in
    cnt sj = ISR_CNT c - Z.of_nat j
    /\ rising tj = 0%nat
    /\ (Z.of_nat j < PPS_DC c -> pin_high sj = true /\ falling tj = 0%nat)
    /\ (Z.of_nat j = PPS_DC c ->
          pin_low sj = true /\ pin_high sj = false /\ falling tj = 1%nat).
Proof.
  intros Hc Hp. unfold valid_count, valid_duty in *.
  induction j as [| j IH]; intros Hj.
  - unfold duty_window.
    rewrite state_after_then, trace_of_then.
    unfold state_after, trace_of. rewrite loop_at_reload by assumption.
    cbn. repeat split; try lia; assumption.
  - destruct (duty_window_last j s) as [Es Et].
    rewrite Es, Et, rising_app, falling_app.
    rewrite Nat2Z.inj_succ in *.
    destruct IH as (IHc & IHr & IHlt & _); [lia |].
    destruct IHlt as [IHp IHf]; [lia |].
    destruct (handler_then_loop (state_after (duty_window c j) s))
      as (Sc & _ & _ & Sr & Sp); [lia |].
    rewrite Sc, IHc, IHr, IHf, Sr in *.
    refine (conj _ (conj _ (conj _ _))); try lia.
    + intros Hlt.
      destruct (Z.eqb_spec (ISR_CNT c - Z.of_nat j - 1) (ISR_CNT c - PPS_DC c));
        [lia |].
      destruct Sp as (_ & Sh & Sf). rewrite Sh, Sf. now split.
    + intros Heq.
      destruct (Z.eqb_spec (ISR_CNT c - Z.of_nat j - 1) (ISR_CNT c - PPS_DC c));
        [| lia].
      destruct Sp as (Sl & Sh & Sf). rewrite Sf. repeat split; assumption.
Qed.

Lemma timer_interrupt_running s :
  running s -> timer_interrupt c s = pps_out c s.
Proof. intros [Hh Hi]. unfold timer_interrupt. now rewrite Hh, Hi. Qed.

Lemma period_running s :
  running s -> period c s = (pps_out c ;; main_loop_body c) s.
Proof.
  intros H. unfold period, and_then. now rewrite timer_interrupt_running.
Qed.

(** The engine after [n] timer periods, started with the counter
    reloaded and the pin low. *)
Lemma engine_invariant s0 :
  running s0 -> cnt s0 = ISR_CNT c -> pin_high s0 = false -> pin_low s0 = true ->
  forall n : nat,
    let s := state_after (times n (period c)) s0 in
    let r := Z.of_nat n mod ISR_CNT c in
    running s
    /\ cnt s = ISR_CNT c - r
    /\ pin_high s = (ISR_CNT c <=? Z.of_nat n) && (r <? PPS_DC c)
    /\ pin_low s = negb (pin_high s).
Proof.
  intros Hrun Hc Hh Hl. unfold valid_count, valid_duty in *.
  induction n as [| n IH].
  - cbn [times]. unfold state_after, skip. cbn [fst].
    change (Z.of_nat 0) with 0. rewrite Z.mod_0_l by lia.
    destruct (Z.leb_spec (ISR_CNT c) 0); [lia |].
    cbn [andb]. rewrite Hh, Hl. repeat split; try apply Hrun. lia.
  - destruct IH as (IHrun & IHc & IHh & IHl).
    rewrite state_after_times_last.
    set (sn := state_after (times n (period c)) s0) in *.
    assert (Ep : state_after (period c) sn
                 = state_after (pps_out c ;; main_loop_body c) sn).
    { unfold state_after. now rewrite period_running. }
    rewrite Ep.
    rewrite Nat2Z.inj_succ, <- Z.add_1_r, mod_succ by lia.
    pose proof (Z.mod_pos_bound (Z.of_nat n) (ISR_CNT c)) as Hb.
    pose proof (Z.mod_le (Z.of_nat n) (ISR_CNT c)) as Hle.
    assert (Hsmall : Z.of_nat n < ISR_CNT c ->
                     Z.of_nat n mod ISR_CNT c = Z.of_nat n).
    { intros. apply Z.mod_small. lia. }
    set (rn := Z.of_nat n mod ISR_CNT c) in *.
    destruct IHrun as [Hhd Hie].
    destruct (Z.eqb_spec (rn + 1) (ISR_CNT c)) as [E | E].
    + destruct (boundary_then_loop sn) as (Sc & Shd & Sie & Sh & Sl & _);
        [lia |].
      rewrite Sc, Sh, Sl. unfold running. rewrite Shd, Sie.
      destruct (Z.leb_spec (ISR_CNT c) (Z.of_nat n + 1)); [| lia].
      destruct (Z.ltb_spec 0 (PPS_DC c)); [| lia].
      repeat split; try assumption; lia.
    + destruct (handler_then_loop sn) as (Sc & Shd & Sie & _ & Sp); [lia |].
      rewrite Sc. unfold running. rewrite Shd, Sie.
      refine (conj (conj Hhd Hie) (conj _ _)); [lia |].
      destruct (Z.eqb_spec (cnt sn - 1) (ISR_CNT c - PPS_DC c)).
      * destruct Sp as (Sl & Sh & _). rewrite Sl, Sh.
        destruct (Z.ltb_spec (rn + 1) (PPS_DC c)); [lia |].
        rewrite andb_false_r. split; reflexivity.
      * destruct Sp as (Sl & Sh & _). rewrite Sl, Sh, IHl, IHh.
        split; [| reflexivity].
        destruct (Z.leb_spec (ISR_CNT c) (Z.of_nat n)),
                 (Z.leb_spec (ISR_CNT c) (Z.of_nat n + 1)),
                 (Z.ltb_spec rn (PPS_DC c)),
                 (Z.ltb_spec (rn + 1) (PPS_DC c));
          cbn [andb]; try reflexivity; lia.
Qed.

(** What the next period does, by the number of the call. *)
Lemma engine_next_period s0 :
  running s0 -> cnt s0 = ISR_CNT c -> pin_high s0 = false -> pin_low s0 = true ->
  forall n : nat,
    let s := state_after (times n (period c)) s0 in
    let k := Z.of_nat n + 1 in
    drives_high (trace_of (timer_interrupt c) s) = (k mod ISR_CNT c =? 0)
    /\ drives_low (trace_of (main_loop_body c) (state_after (timer_interrupt c) s))
       = (k mod ISR_CNT c =? PPS_DC c).
Proof.
  intros Hrun Hc Hh Hl n s k.
  destruct (engine_invariant s0 Hrun Hc Hh Hl n) as (Srun & Sc & _).
  fold s in Srun, Sc. unfold valid_count, valid_duty in *.
  unfold k. rewrite mod_succ by lia.
  pose proof (Z.mod_pos_bound (Z.of_nat n) (ISR_CNT c)) as Hb.
  set (rn := Z.of_nat n mod ISR_CNT c) in *.
  unfold trace_of, state_after. rewrite timer_interrupt_running by assumption.
  rewrite pps_out_in_period by (assumption || (unfold in_period; lia)).
  destruct (Z.eqb_spec (cnt s) 1), (Z.eqb_spec (rn + 1) (ISR_CNT c)); try lia.
  - cbn [fst snd]. rewrite main_loop_body_cases, duty_threshold_valid.
    cbn [cnt with_cnt with_PORTB].
    destruct (Z.eqb_spec (ISR_CNT c) (ISR_CNT c - PPS_DC c)); [lia |].
    destruct (Z.eqb_spec 0 (PPS_DC c)); [lia |]. split; reflexivity.
  - cbn [fst snd]. rewrite main_loop_body_cases, duty_threshold_valid.
    cbn [cnt with_cnt].
    destruct (Z.eqb_spec (cnt s - 1) (ISR_CNT c - PPS_DC c)),
             (Z.eqb_spec (rn + 1) 0), (Z.eqb_spec (rn + 1) (PPS_DC c));
      try lia; split; reflexivity.
Qed.

End DutyFacts.

Section EngineClaims.

(** With exactly one pass of the loop after each call: right after a
    call of the handler that drove the pin high, the loop and the next
    [PPS_DC] calls of the handler, the loop run once after each, drive
    the pin low exactly once: nothing drives it low and it
    stays high through the first [PPS_DC - 1] calls, and it is low
    once the loop has run after the [PPS_DC]-th call, before any
    further call. *)
Lemma one_falling_edge_per_duty_window (c : config) (s0 : mcu) :
  valid_count c -> valid_duty c ->
  drives_high (trace_of (pps_out c) s0) = true ->
  let s := state_after (pps_out c) s0 in
  let d := Z.to_nat (PPS_DC c) in
  pin_high s = true
  /\ falling (trace_of (duty_window c d) s) = 1%nat
  /\ pin_low (state_after (duty_window c d) s) = true
  /\ (forall j : nat, (j < d)%nat ->
        falling (trace_of (duty_window c j) s) = 0%nat
        /\ pin_high (state_after (duty_window c j) s) = true).
Proof.
  intros count_ok duty_ok Hrise s d.
  assert (Hs : cnt s = ISR_CNT c /\ pin_high s = true).
  { unfold s, state_after. unfold trace_of in Hrise.
    rewrite pps_out_cases in *.
    destruct (to_u16 (cnt s0 - 1) =? 0); [| discriminate].
    cbn [fst]. split.
    - cbn [cnt with_cnt with_PORTB]. now apply reset_value.
    - unfold pin_high. cbn [PORTB with_PORTB]. rewrite land_lor_mask.
      apply Z.eqb_refl. }
  destruct Hs as [Hc Hp].
  assert (Hd : Z.of_nat d = PPS_DC c).
  { unfold d. apply Z2Nat.id. unfold valid_duty in duty_ok. lia. }
  refine (conj Hp (conj _ (conj _ _))).
  - destruct (duty_window_progress c count_ok duty_ok s Hc Hp d) as (_ & _ & _ & H);
      [lia |].
    now destruct (H Hd) as (_ & _ & Hf).
  - destruct (duty_window_progress c count_ok duty_ok s Hc Hp d) as (_ & _ & _ & H);
      [lia |].
    now destruct (H Hd) as (Hl & _ & _).
  - intros j Hj.
    destruct (duty_window_progress c count_ok duty_ok s Hc Hp j) as (_ & _ & H & _);
      [lia |].
    destruct H as [Hh Hf]; [lia |]. now split.
Qed.

(** C4.  The constants of the file pass every check and select the
    prescaler 8; their product is the oscillator frequency.  Once
    [main] has set the engine up, the handler call number [k] drives
    the pin high exactly when [k] is a multiple of 1250, the loop after
    it drives the pin low exactly when [k] is 10 more than a multiple
    of 1250, and the pin is high after [n] periods exactly when a
    rising edge has occurred and fewer than 10 calls have followed the
    last one. *)
Theorem configured_waveform
    (TMR0_PSMASK : Z) (selector : tmr0_ps -> Z) (mcu_init : action)
    (boot : action) (s0 : mcu) (n : nat) :
  main_setup configured TMR0_PSMASK selector mcu_init = Some boot ->
  let s := state_after (times n (period configured)) (state_after boot s0) in
  let k := Z.of_nat n + 1 in
  validate configured = []
  /\ PPS_PS configured = Some TMR0_PS8x
  /\ exact_product configured = F_OSC configured
  /\ drives_high (trace_of (timer_interrupt configured) s) = (k mod 1250 =? 0)
  /\ drives_low (trace_of (main_loop_body configured)
                   (state_after (timer_interrupt configured) s))
     = (k mod 1250 =? 10)
  /\ pin_high s = (1250 <=? Z.of_nat n) && (Z.of_nat n mod 1250 <? 10)
  /\ pin_low s = negb (pin_high s).
Proof.
  intros Hboot s k.
  assert (Hps : PPS_PS configured = Some TMR0_PS8x) by (vm_compute; reflexivity).
  assert (count_ok : valid_count configured) by (unfold valid_count; simpl; lia).
  assert (duty_ok : valid_duty configured) by (unfold valid_duty; simpl; lia).
  unfold main_setup in Hboot. rewrite Hps in Hboot.
  injection Hboot as <-.
  set (sb := state_after
               (mcu_init ;; pps_init configured TMR0_PSMASK (selector TMR0_PS8x) ;; ei)
               s0) in *.
  assert (Hsb : running sb /\ cnt sb = ISR_CNT configured
                /\ pin_high sb = false /\ pin_low sb = true).
  { unfold sb. rewrite !state_after_then.
    destruct (pps_init_effects configured TMR0_PSMASK (selector TMR0_PS8x)
                (state_after mcu_init s0) count_ok)
      as (Hc & Hl & Hh & _ & Hhd & _).
    set (si := state_after (pps_init configured TMR0_PSMASK (selector TMR0_PS8x))
                 (state_after mcu_init s0)) in *.
    unfold running, state_after, ei, pin_high, pin_low in *.
    cbn [fst cnt PORTB tmr0_handler interrupts_enabled with_interrupts_enabled].
    auto. }
  destruct Hsb as (Hrun & Hc & Hh & Hl).
  destruct (engine_invariant configured count_ok duty_ok sb Hrun Hc Hh Hl n)
    as (_ & _ & Ih & Il).
  destruct (engine_next_period configured count_ok duty_ok sb Hrun Hc Hh Hl n)
    as (Nh & Nl).
  refine (conj _ (conj Hps (conj _ (conj Nh (conj Nl (conj Ih Il))))));
    vm_compute; reflexivity.
Qed.

End EngineClaims.

(** ** The two counting conventions *)

Section Equivalence.

Variable c : config.
Variable u : UpCounter.config.
Hypothesis count_ok : valid_count c.
Hypothesis same_count : UpCounter.PPS_CNT u = ISR_CNT c.

Lemma boundary_pattern_succ r n :
  0 <= r < ISR_CNT c ->
  boundary_pattern c r (S n)
  = (r + 1 =? ISR_CNT c)
      :: boundary_pattern c (if r + 1 =? ISR_CNT c then 0 else r + 1) n.
Proof.
  intros Hr. unfold boundary_pattern.
  cbn [seq map]. f_equal.
  - change (Z.of_nat 0 + 1 + r) with (1 + r). rewrite Z.add_comm.
    rewrite mod_succ, (Z.mod_small r) by lia.
    destruct (Z.eqb_spec (r + 1) (ISR_CNT c)); [reflexivity |].
    apply Z.eqb_neq. lia.
  - rewrite <- seq_shift, map_map. apply map_ext. intros i.
    rewrite Nat2Z.inj_succ.
    replace (Z.succ (Z.of_nat i) + 1 + r) with (Z.of_nat i + 1 + (r + 1)) by lia.
    rewrite <- (Zplus_mod_idemp_r (r + 1)).
    rewrite mod_succ, (Z.mod_small r) by lia.
    reflexivity.
Qed.

Lemma down_pattern n :
  forall (s : mcu) (r : Z),
    0 <= r < ISR_CNT c -> cnt s = ISR_CNT c - r ->
    map drives_high (calls (pps_out c) n s) = boundary_pattern c r n.
Proof.
  induction n as [| n IH]; intros s r Hr Hs; [reflexivity |].
  rewrite boundary_pattern_succ by assumption. cbn [calls map].
  unfold trace_of, state_after at 1.
  rewrite pps_out_in_period by (assumption || (unfold in_period; lia)).
  destruct (Z.eqb_spec (cnt s) 1), (Z.eqb_spec (r + 1) (ISR_CNT c)); try lia;
    cbn [fst snd]; f_equal; apply IH; cbn [cnt with_cnt with_PORTB]; lia.
Qed.

Lemma up_pattern n :
  forall (s : mcu) (r : Z),
    0 <= r < ISR_CNT c -> cnt s = r ->
    map drives_high (calls (UpCounter.pps_out u) n s) = boundary_pattern c r n.
Proof.
  assert (HN : 1 <= ISR_CNT c <= 65535) by exact count_ok.
  induction n as [| n IH]; intros s r Hr Hs; [reflexivity |].
  rewrite boundary_pattern_succ by assumption. cbn [calls map].
  assert (E : UpCounter.pps_out u s =
              if r + 1 =? ISR_CNT c
              then (with_PORTB (Z.lor (PORTB s) PPS_PIN) (with_cnt 0 s),
                    [DriveHigh PPS_PIN])
              else (with_cnt (r + 1) s, [])).
  { unfold UpCounter.pps_out, and_then, assign_cnt, when, IO_SET, skip.
    cbn [cnt with_cnt fst snd]. rewrite same_count, Hs.
    rewrite (to_u16_small (r + 1)) by lia.
    destruct (r + 1 =? ISR_CNT c); reflexivity. }
  unfold trace_of, state_after at 1. rewrite E.
  destruct (Z.eqb_spec (r + 1) (ISR_CNT c));
    cbn [fst snd]; f_equal; apply IH; cbn [cnt with_cnt with_PORTB]; lia.
Qed.

End Equivalence.

Section EquivalenceClaim.

(** C9.  With the same repeat count, the down-counter handler started
    at [ISR_CNT] and the up-counter handler started at 0 drive the pin
    high on the same calls, call for call: on every [ISR_CNT]-th one. *)
Theorem counting_conventions_agree
    (c : config) (u : UpCounter.config) (sd su : mcu) (n : nat) :
  valid_count c ->
  UpCounter.PPS_CNT u = ISR_CNT c ->
  cnt sd = cnt_initial c ->
  cnt su = UpCounter.cnt_initial ->
  map drives_high (calls (pps_out c) n sd)
  = map drives_high (calls (UpCounter.pps_out u) n su)
  /\ map drives_high (calls (pps_out c) n sd)
     = map (fun i => (Z.of_nat i + 1) mod ISR_CNT c =? 0) (seq 0 n).
Proof.
  intros count_ok same_count Hd Hu.
  assert (HN : 1 <= ISR_CNT c <= 65535) by exact count_ok.
  unfold cnt_initial in Hd. rewrite reset_value in Hd by assumption.
  unfold UpCounter.cnt_initial in Hu.
  rewrite (down_pattern c count_ok n sd 0) by lia.
  rewrite (up_pattern c u count_ok same_count n su 0) by lia.
  split; [reflexivity |].
  unfold boundary_pattern. apply map_ext. intros i.
  now rewrite Z.add_0_r.
Qed.

End EquivalenceClaim.

(** ** The properties at the constants of the file *)

Section Instances.

Let count_ok : valid_count configured.
Proof. unfold valid_count; simpl; lia. Defined.

Let duty_ok : valid_duty configured.
Proof. unfold valid_duty; simpl; lia. Defined.

Lemma counter_stays_in_period_witness :
  1 <= cnt_initial configured <= ISR_CNT configured.
Proof.
  exact (proj1 (counter_stays_in_period configured 7 count_ok)).
Defined.

Lemma pps_init_postconditions_witness :
  cnt (state_after (pps_init configured 7 2) (power_on configured))
  = ISR_CNT configured.
Proof.
  exact (proj1 (proj2 (pps_init_postconditions configured 7 2
                         (power_on configured) count_ok))).
Defined.

Lemma one_rising_edge_per_period_witness :
  rising (trace_of (run configured (repeat Invoke 1250))
            (state_after (pps_init configured 7 2) (power_on configured)))
  = 1%nat.
Proof.
  assert (Hl : Z.of_nat (invocations (repeat Invoke 1250)) = ISR_CNT configured).
  { vm_compute. reflexivity. }
  exact (proj1 (one_rising_edge_per_period configured 7 _ _ count_ok
                  (reach_init configured 7 2 (power_on configured)) Hl)).
Defined.

Lemma one_falling_edge_per_duty_window_witness :
  falling (trace_of (duty_window configured (Z.to_nat (PPS_DC configured)))
             (state_after (pps_out configured) (with_cnt 1 (power_on configured))))
  = 1%nat.
Proof.
  assert (Hr : drives_high (trace_of (pps_out configured)
                              (with_cnt 1 (power_on configured))) = true).
  { vm_compute. reflexivity. }
  exact (proj1 (proj2 (one_falling_edge_per_duty_window configured _
                         count_ok duty_ok Hr))).
Defined.

Lemma configured_waveform_witness :
  drives_high
    (trace_of (timer_interrupt configured)
       (state_after (times 1249 (period configured))
          (state_after (skip ;; pps_init configured 7 2 ;; ei)
             (power_on configured))))
  = ((Z.of_nat 1249 + 1) mod 1250 =? 0).
Proof.
  assert (Hb : main_setup configured 7 (fun _ => 2) skip
               = Some (skip ;; pps_init configured 7 2 ;; ei)).
  { reflexivity. }
  exact (proj1 (proj2 (proj2 (proj2
           (configured_waveform 7 (fun _ => 2) skip _
              (power_on configured) 1249 Hb))))).
Defined.

Lemma counting_conventions_agree_witness :
  map drives_high (calls (pps_out count_1215) 3 (power_on count_1215))
  = map drives_high (calls (UpCounter.pps_out UpCounter.configured) 3 power_on_up).
Proof.
  assert (Hc : valid_count count_1215) by (unfold valid_count; simpl; lia).
  assert (Hn : UpCounter.PPS_CNT UpCounter.configured = ISR_CNT count_1215).
  { vm_compute. reflexivity. }
  exact (proj1 (counting_conventions_agree count_1215 UpCounter.configured
                  (power_on count_1215) power_on_up 3 Hc Hn eq_refl eq_refl)).
Defined.

End Instances.


(** * More of the two programs *)

(** ** What the build accepts *)

Section Acceptance.

Import Cpp CppFacts.

Lemma widths_fit c :
  data_model_widths c ->
  fits_signed (PS_TMR c) /\ fits_signed (TMR_TOP c) /\ fits_signed (ISR_CNT c).
Proof. unfold data_model_widths, fits_signed. lia. Qed.

Lemma accepted_sound (c : config) :
  data_model_widths c ->
  accepted c = true ->
  selectable (PS_TMR c) /\ F_OSC c = exact_product c /\ TMR_TOP c <= 255.
Proof.
  intros Hw.
  destruct (widths_fit c Hw) as (Fp & Ft & Fn).
  pose proof (exact_product_width c Hw) as Hp.
  unfold accepted, validate.
  rewrite (prescaler_chain_cases c Fp), factorization_diagnostics,
    (tmr_top_diagnostics c Ft), (isr_cnt_diagnostics c Fn),
    (pps_dc_diagnostics c Fn).
  fold (exact_product c).
  rewrite (Z.mod_small (F_OSC c)), (Z.mod_small (exact_product c))
    by (unfold data_model_widths in Hw; unfold modulus, precision; lia).
  unfold selectable.
  destruct (ISR_CNT c <? 0), (65535 <? ISR_CNT c);
  destruct (Z.eqb_spec (F_OSC c) (exact_product c)),
           (Z.ltb_spec 255 (TMR_TOP c)),
           (Z.eqb_spec (PS_TMR c) 1), (Z.eqb_spec (PS_TMR c) 8),
           (Z.eqb_spec (PS_TMR c) 64), (Z.eqb_spec (PS_TMR c) 256);
    cbn; intros; try discriminate; lia.
Qed.

(** X1.  Within the widths of the data model the build goes through exactly
    when the prescaler is 1, 8, 64 or 256, the factorization is exact
    and the reload value is at most 255.  Neither [PS_FUSE] being 1 or
    8, nor [PPS_DC], nor a lower bound on [TMR_TOP] or [ISR_CNT] plays a
    part. *)
Theorem accepted_iff (c : config) :
  data_model_widths c ->
  (accepted c = true
   <-> selectable (PS_TMR c)
       /\ F_OSC c = exact_product c
       /\ TMR_TOP c <= 255).
Proof.
  intros Hw.
  destruct (widths_fit c Hw) as (Fp & Ft & Fn).
  pose proof (exact_product_width c Hw) as Hp.
  unfold accepted, validate.
  rewrite (prescaler_chain_cases c Fp), factorization_diagnostics,
    (tmr_top_diagnostics c Ft), (isr_cnt_diagnostics c Fn),
    (pps_dc_diagnostics c Fn).
  fold (exact_product c).
  assert (Ho : F_OSC c mod modulus = F_OSC c).
  { apply Z.mod_small. unfold data_model_widths in Hw.
    unfold modulus, precision. lia. }
  assert (He : exact_product c mod modulus = exact_product c).
  { apply Z.mod_small. unfold modulus, precision. lia. }
  rewrite Ho, He. unfold selectable, data_model_widths in *.
  destruct (Z.ltb_spec 65535 (ISR_CNT c)); [lia |].
  destruct (Z.ltb_spec (ISR_CNT c) 0); [lia |].
  destruct (Z.eqb_spec (F_OSC c) (exact_product c)),
           (Z.ltb_spec 255 (TMR_TOP c)),
           (Z.eqb_spec (PS_TMR c) 1), (Z.eqb_spec (PS_TMR c) 8),
           (Z.eqb_spec (PS_TMR c) 64), (Z.eqb_spec (PS_TMR c) 256);
    cbn; split; intros; try discriminate; try lia; try reflexivity.
Qed.

Lemma accepted_iff_witness :
  accepted configured = true
  <-> selectable (PS_TMR configured)
      /\ F_OSC configured = exact_product configured
      /\ TMR_TOP configured <= 255.
Proof.
  assert (Hw : data_model_widths configured).
  { unfold data_model_widths; simpl; lia. }
  exact (accepted_iff configured Hw).
Defined.

Lemma accepted_runs (c : config) :
  data_model_widths c ->
  accepted c = true ->
  0 < F_OSC c ->
  valid_count c /\ exists ps, PPS_PS c = Some ps.
Proof.
  intros Hw Ha Ho.
  destruct (accepted_sound c Hw Ha) as (Hs & He & Ht).
  destruct (widths_fit c Hw) as (Fp & _ & _).
  unfold data_model_widths, exact_product, valid_count in *.
  assert (ISR_CNT c <> 0) by (intros E; rewrite E in He; lia).
  split; [lia |].
  unfold PPS_PS. rewrite (prescaler_chain_cases c Fp).
  destruct Hs as [E | [E | [E | E]]]; rewrite E; cbn; eauto.
Qed.

(** X2.  An accepted configuration with a non-zero oscillator frequency
    defines [PPS_PS] and has what the engine needs: a repeat count
    between 1 and 65535, a reload value between 1 and 255 and a fuse
    divider of at least 1. *)
Theorem accepted_is_runnable (c : config) :
  data_model_widths c ->
  accepted c = true ->
  0 < F_OSC c ->
  valid_count c
  /\ 1 <= TMR_TOP c <= 255
  /\ 1 <= PS_FUSE c
  /\ exists ps, PPS_PS c = Some ps.
Proof.
  intros Hw Ha Ho.
  destruct (accepted_runs c Hw Ha Ho) as (Hc & Hps).
  destruct (accepted_sound c Hw Ha) as (_ & He & Ht).
  unfold data_model_widths, exact_product in *.
  assert (TMR_TOP c <> 0) by (intros E; rewrite E in He; lia).
  assert (PS_FUSE c <> 0) by (intros E; rewrite E in He; lia).
  refine (conj Hc (conj _ (conj _ Hps))); lia.
Qed.

Lemma accepted_is_runnable_witness : valid_count configured.
Proof.
  assert (Hw : data_model_widths configured).
  { unfold data_model_widths; simpl; lia. }
  assert (Ha : accepted configured = true) by (vm_compute; reflexivity).
  assert (Ho : 0 < F_OSC configured) by (simpl; lia).
  exact (proj1 (accepted_is_runnable configured Hw Ha Ho)).
Defined.

Lemma prescaler_mapping_witness :
  PPS_PS configured = Some TMR0_PS8x /\ snd (prescaler_chain configured) = [].
Proof.
  assert (Hf : fits_signed (PS_TMR configured)).
  { unfold fits_signed; simpl; lia. }
  exact (proj1 (proj2 (prescaler_mapping configured Hf)) eq_refl).
Defined.

Lemma duty_check_ignores_duty_witness :
  In PpsDcTooBig (validate duty_2000) <-> ISR_CNT duty_2000 < 0.
Proof.
  assert (Hf : fits_signed (ISR_CNT duty_2000)).
  { unfold fits_signed; simpl; lia. }
  exact (duty_check_ignores_duty duty_2000 Hf).
Defined.

(** X6.  With an exact factorization and a fuse divider of 8 or 1, [F_CLK] is
    the oscillator frequency divided by the fuse divider without
    remainder: the product of the three timer factors. *)
Theorem timer_clock_exact (c : config) :
  data_model_widths c ->
  F_OSC c = exact_product c ->
  PS_FUSE c = 8 \/ PS_FUSE c = 1 ->
  F_CLK c = PS_TMR c * TMR_TOP c * ISR_CNT c.
Proof.
  intros Hw He Hf. unfold F_CLK.
  rewrite eq_constants
    by (unfold data_model_widths, fits_signed in *; lia).
  unfold exact_product in He. rewrite He.
  destruct Hf as [E | E]; rewrite E; cbn [Z.eqb Pos.eqb].
  - rewrite <- !Z.mul_assoc, Z.mul_comm. apply Z.div_mul. discriminate.
  - rewrite Z.div_1_r. lia.
Qed.

Lemma timer_clock_exact_witness :
  F_CLK configured = PS_TMR configured * TMR_TOP configured * ISR_CNT configured.
Proof.
  assert (Hw : data_model_widths configured).
  { unfold data_model_widths; simpl; lia. }
  exact (timer_clock_exact configured Hw eq_refl (or_introl eq_refl)).
Defined.

(** Any fuse divider other than 8 is taken as 1 by [F_CLK]. *)
Lemma timer_clock_other_fuse (c : config) :
  fits_signed (PS_FUSE c) ->
  PS_FUSE c <> 8 ->
  F_CLK c = F_OSC c.
Proof.
  intros Hf Hn. unfold F_CLK.
  rewrite eq_constants by (assumption || (unfold fits_signed; lia)).
  apply Z.eqb_neq in Hn. rewrite Hn. apply Z.div_1_r.
Qed.

(** X7.  The build does not hold the fuse divider to 1 or 8.  In an
    accepted configuration with another divider the factorization check
    has taken [PS_FUSE] at its value while [F_CLK] takes it as 1: [F_CLK]
    is then [PS_FUSE] times the product of the three timer factors, and
    not that product. *)
Theorem fuse_divider_unchecked (c : config) :
  data_model_widths c ->
  accepted c = true ->
  0 < F_OSC c ->
  PS_FUSE c <> 8 ->
  PS_FUSE c <> 1 ->
  F_CLK c = PS_FUSE c * (PS_TMR c * TMR_TOP c * ISR_CNT c)
  /\ F_CLK c <> PS_TMR c * TMR_TOP c * ISR_CNT c.
Proof.
  intros Hw Ha Ho H8 H1.
  destruct (accepted_sound c Hw Ha) as (_ & He & _).
  assert (Hf : fits_signed (PS_FUSE c)).
  { unfold data_model_widths, fits_signed in *. lia. }
  rewrite (timer_clock_other_fuse c Hf H8).
  unfold exact_product in He.
  set (p := PS_TMR c * TMR_TOP c * ISR_CNT c).
  assert (Ep : F_OSC c = PS_FUSE c * p) by (unfold p; rewrite He; ring).
  split; [exact Ep |].
  intros E. rewrite E in Ep.
  assert (p * (PS_FUSE c - 1) = 0) by lia.
  apply Z.mul_eq_0 in H. lia.
Qed.

Lemma fuse_divider_unchecked_witness :
  F_CLK fuse_2 = PS_FUSE fuse_2 * (PS_TMR fuse_2 * TMR_TOP fuse_2 * ISR_CNT fuse_2)
  /\ F_CLK fuse_2 <> PS_TMR fuse_2 * TMR_TOP fuse_2 * ISR_CNT fuse_2.
Proof.
  assert (Hw : data_model_widths fuse_2).
  { unfold data_model_widths; simpl; lia. }
  assert (Ha : accepted fuse_2 = true) by (vm_compute; reflexivity).
  assert (Ho : 0 < F_OSC fuse_2) by (simpl; lia).
  assert (H8 : PS_FUSE fuse_2 <> 8) by (simpl; lia).
  assert (H1 : PS_FUSE fuse_2 <> 1) by (simpl; lia).
  exact (fuse_divider_unchecked fuse_2 Hw Ha Ho H8 H1).
Defined.

End Acceptance.

(** ** The handler outside its period *)

Section Recovery.

Variable c : config.

Local Arguments to_u16 : simpl never.

Lemma pps_out_pass s :
  1 < cnt s <= 65536 ->
  pps_out c s = (with_cnt (cnt s - 1) s, []).
Proof.
  intros H. rewrite pps_out_cases, (to_u16_small (cnt s - 1)) by lia.
  destruct (Z.eqb_spec (cnt s - 1) 0); [lia | reflexivity].
Qed.

Lemma pps_out_fire s :
  cnt s = 1 ->
  pps_out c s
  = (with_PORTB (Z.lor (PORTB s) PPS_PIN) (with_cnt (cnt_initial c) s),
     [DriveHigh PPS_PIN]).
Proof. intros H. rewrite pps_out_cases, H. reflexivity. Qed.

(** Counting down from [n + 1]: the call that finds the counter at 1 is
    the first to drive the pin high. *)
Lemma countdown n :
  forall s,
    cnt s = Z.of_nat (S n) -> Z.of_nat (S n) <= 65536 ->
    rising (trace_of (times (S n) (pps_out c)) s) = 1%nat
    /\ rising (trace_of (times n (pps_out c)) s) = 0%nat
    /\ cnt (state_after (times (S n) (pps_out c)) s) = cnt_initial c.
Proof.
  induction n as [| n IH]; intros s Hs Hn.
  - cbn [times]. rewrite trace_of_then, state_after_then.
    unfold trace_of, state_after. rewrite pps_out_fire by exact Hs.
    cbn. auto.
  - change (times (S (S n)) (pps_out c))
      with (pps_out c ;; times (S n) (pps_out c)).
    change (times (S n) (pps_out c)) with (pps_out c ;; times n (pps_out c)) at 2.
    rewrite !trace_of_then, state_after_then, !rising_app.
    rewrite Nat2Z.inj_succ in Hs, Hn.
    assert (E : pps_out c s = (with_cnt (cnt s - 1) s, [])).
    { apply pps_out_pass. lia. }
    unfold trace_of at 1 3, state_after at 1 2 4. rewrite E. cbn [fst snd].
    destruct (IH (with_cnt (cnt s - 1) s)) as (I1 & I0 & Ic).
    + cbn [cnt with_cnt]. lia.
    + lia.
    + rewrite I1, I0, Ic. refine (conj eq_refl (conj eq_refl eq_refl)).
Qed.

(** X9.  From any value of the 16-bit counter the handler finds its period
    again: the call number [calls_to_reload] of that value, and none
    before it, drives the pin high and reloads the counter.  A counter
    at 0 takes the full 65536 calls. *)
Theorem handler_recovers (s : mcu) :
  0 <= cnt s < 65536 ->
  let k := calls_to_reload (cnt s) in
  rising (trace_of (times k (pps_out c)) s) = 1%nat
  /\ rising (trace_of (times (pred k) (pps_out c)) s) = 0%nat
  /\ cnt (state_after (times k (pps_out c)) s) = cnt_initial c.
Proof.
  intros Hs k. unfold k, calls_to_reload.
  destruct (Z.eq_dec (cnt s) 0) as [E | E].
  - rewrite E. change ((0 - 1) mod 2 ^ 16 + 1) with 65536.
    replace (Z.to_nat 65536) with (S (S (Z.to_nat 65534))) by lia.
    set (n := Z.to_nat 65534).
    assert (Hn : Z.of_nat (S n) = 65535) by (unfold n; lia).
    clearbody n.
    cbn [pred].
    change (times (S (S n)) (pps_out c))
      with (pps_out c ;; times (S n) (pps_out c)).
    change (times (S n) (pps_out c)) with (pps_out c ;; times n (pps_out c)) at 2.
    rewrite !trace_of_then, state_after_then, !rising_app.
    assert (P : pps_out c s = (with_cnt 65535 s, [])).
    { rewrite pps_out_cases, E. reflexivity. }
    unfold trace_of at 1 3, state_after at 1 2 4. rewrite P. cbn [fst snd].
    destruct (countdown n (with_cnt 65535 s)) as (I1 & I0 & Ic).
    + cbn [cnt with_cnt]. lia.
    + lia.
    + rewrite I1, I0, Ic. refine (conj eq_refl (conj eq_refl eq_refl)).
  - rewrite Z.mod_small by lia.
    replace (Z.to_nat (cnt s - 1 + 1)) with (S (Z.to_nat (cnt s - 1))) by lia.
    cbn [pred]. apply countdown; lia.
Qed.

End Recovery.

Section RecoveryInstance.

Lemma handler_recovers_witness :
  rising (trace_of
            (times (calls_to_reload (cnt (with_cnt 3 (power_on configured))))
               (pps_out configured))
            (with_cnt 3 (power_on configured)))
  = 1%nat.
Proof.
  assert (Hs : 0 <= cnt (with_cnt 3 (power_on configured)) < 65536).
  { simpl; lia. }
  pose proof (handler_recovers configured (with_cnt 3 (power_on configured)) Hs) as H.
  cbv zeta in H. exact (proj1 H).
Defined.

End RecoveryInstance.

(** ** Duty counts the build lets through *)

Section DutyEdges.

Variable c : config.
Hypothesis count_ok : valid_count c.

(** With a duty count of [ISR_CNT] or more, the value the loop waits for
    is none the counter takes within its period. *)
Lemma threshold_outside_period :
  ISR_CNT c <= PPS_DC c -> ~ 1 <= duty_threshold c <= ISR_CNT c.
Proof.
  intros Hd. unfold valid_count in count_ok. unfold duty_threshold.
  destruct (fits_int (ISR_CNT c) && fits_int (PPS_DC c)) eqn:F; [| lia].
  apply andb_true_iff in F. destruct F as [Fi Fd].
  unfold fits_int in Fi, Fd.
  apply andb_true_iff in Fi, Fd.
  destruct Fi as [_ Fi], Fd as [_ Fd].
  apply Z.leb_le in Fi, Fd.
  unfold to_u16. change (2 ^ 16) with 65536.
  pose proof (Z.mod_pos_bound (ISR_CNT c - PPS_DC c) 65536) as Hb.
  pose proof (Z.div_mod (ISR_CNT c - PPS_DC c) 65536) as Hq.
  lia.
Qed.

Lemma pps_out_falling s : falling (trace_of (pps_out c) s) = 0%nat.
Proof.
  unfold trace_of. rewrite pps_out_cases.
  now destruct (to_u16 (cnt s - 1) =? 0).
Qed.

Lemma pps_out_keeps_high s :
  pin_high s = true -> pin_high (state_after (pps_out c) s) = true.
Proof.
  intros H. unfold state_after. rewrite pps_out_cases.
  destruct (to_u16 (cnt s - 1) =? 0); cbn [fst].
  - unfold pin_high. cbn [PORTB with_PORTB]. rewrite land_lor_mask.
    apply Z.eqb_refl.
  - exact H.
Qed.

(** X10.  A duty count of [ISR_CNT] or more, which the build does not reject,
    leaves the loop with nothing to do: over any schedule from a state
    reached after [pps_init] the pin is never driven low, and once high
    it stays high. *)
Theorem oversized_duty_never_falls (TMR0_PSMASK : Z) (s : mcu) (l : list event) :
  ISR_CNT c <= PPS_DC c ->
  reachable c TMR0_PSMASK s ->
  falling (trace_of (run c l) s) = 0%nat
  /\ (pin_high s = true -> pin_high (state_after (run c l) s) = true).
Proof.
  intros Hd Hr.
  pose proof (reachable_in_period c count_ok _ _ Hr) as Hs. clear Hr.
  pose proof (threshold_outside_period Hd) as Ht.
  revert s Hs. induction l as [| e l IH]; intros s Hs.
  - cbn. auto.
  - cbn [run]. rewrite trace_of_then, state_after_then, falling_app.
    destruct e; cbn [step].
    + destruct (IH _ (pps_out_keeps_period c count_ok s Hs)) as [If Ih].
      rewrite pps_out_falling, If. split; [reflexivity |].
      intros H. apply Ih. now apply pps_out_keeps_high.
    + assert (E : main_loop_body c s = (s, [])).
      { rewrite main_loop_body_cases. unfold in_period in Hs.
        destruct (Z.eqb_spec (cnt s) (duty_threshold c)); [lia | reflexivity]. }
      assert (Es : state_after (main_loop_body c) s = s).
      { unfold state_after. now rewrite E. }
      assert (Et : trace_of (main_loop_body c) s = []).
      { unfold trace_of. now rewrite E. }
      rewrite Es, Et. exact (IH _ Hs).
Qed.

(** X11.  A duty count of zero, which the build does not reject either: the
    pass of the loop that follows the rising edge drives the pin low
    again before any further call of the handler. *)
Theorem zero_duty_pulse (s : mcu) :
  PPS_DC c = 0 ->
  cnt s = 1 ->
  trace_of (pps_out c ;; main_loop_body c) s
  = [DriveHigh PPS_PIN; DriveLow PPS_PIN]
  /\ pin_low (state_after (pps_out c ;; main_loop_body c) s) = true
  /\ cnt (state_after (pps_out c ;; main_loop_body c) s) = ISR_CNT c.
Proof.
  intros Hd Hs.
  assert (Ht : duty_threshold c = ISR_CNT c).
  { unfold duty_threshold. rewrite Hd, Z.sub_0_r.
    destruct (fits_int (ISR_CNT c) && fits_int 0); [| reflexivity].
    now apply reset_value. }
  unfold trace_of, state_after, and_then.
  rewrite pps_out_in_period
    by (assumption || (unfold in_period, valid_count in *; lia)).
  rewrite Hs. cbn [Z.eqb Pos.eqb].
  rewrite main_loop_body_cases, Ht. cbn [cnt with_cnt with_PORTB].
  rewrite Z.eqb_refl. cbn [fst snd app].
  unfold pin_low. cbn [PORTB cnt with_PORTB with_cnt].
  rewrite land_ldiff_mask. auto.
Qed.

End DutyEdges.

Section DutyEdgesInstances.

Lemma oversized_duty_never_falls_witness :
  falling (trace_of (run duty_2000 (repeat Invoke 3 ++ repeat Poll 2))
             (state_after (pps_init duty_2000 sample_mask 2) (power_on duty_2000)))
  = 0%nat.
Proof.
  assert (Hc : valid_count duty_2000) by (unfold valid_count; simpl; lia).
  assert (Hd : ISR_CNT duty_2000 <= PPS_DC duty_2000) by (simpl; lia).
  exact (proj1 (oversized_duty_never_falls duty_2000 Hc sample_mask _
                  (repeat Invoke 3 ++ repeat Poll 2) Hd
                  (reach_init duty_2000 sample_mask 2 (power_on duty_2000)))).
Defined.

Lemma zero_duty_pulse_witness :
  trace_of (pps_out duty_0 ;; main_loop_body duty_0) (with_cnt 1 (power_on duty_0))
  = [DriveHigh PPS_PIN; DriveLow PPS_PIN].
Proof.
  assert (Hc : valid_count duty_0) by (unfold valid_count; simpl; lia).
  exact (proj1 (zero_duty_pulse duty_0 Hc (with_cnt 1 (power_on duty_0))
                  eq_refl eq_refl)).
Defined.

End DutyEdgesInstances.

(** ** What the engine leaves alone, and starting over *)

Section Restart.

Variable c : config.
Variable TMR0_PSMASK : Z.

(** Reading a field of an updated state. *)
Ltac fields :=
  unfold with_cnt, with_PORTB, with_DDRB, with_tmr0_prescaler,
    with_tmr0_period, with_tmr0_handler, with_interrupts_enabled;
  cbn [cnt PORTB DDRB tmr0_prescaler tmr0_period tmr0_handler
       interrupts_enabled].

Lemma ldiff_lor_mask p m : Z.ldiff (Z.lor p m) m = Z.ldiff p m.
Proof.
  apply Z.bits_inj'. intros n _. rewrite !Z.ldiff_spec, Z.lor_spec.
  now destruct (Z.testbit p n), (Z.testbit m n).
Qed.

Lemma lor_lor_mask p m : Z.lor (Z.lor p m) m = Z.lor p m.
Proof.
  apply Z.bits_inj'. intros n _. rewrite !Z.lor_spec.
  now destruct (Z.testbit p n), (Z.testbit m n).
Qed.

Lemma step_frame e s : same_frame s (state_after (step c e) s).
Proof.
  unfold same_frame, state_after. destruct e; cbn [step].
  - rewrite pps_out_cases. destruct (to_u16 (cnt s - 1) =? 0); cbn.
    + rewrite ldiff_lor_mask. auto 6.
    + auto 6.
  - rewrite main_loop_body_cases. destruct (cnt s =? duty_threshold c); cbn.
    + rewrite ldiff_ldiff_mask. auto 6.
    + auto 6.
Qed.

Lemma run_keeps_frame (l : list event) (s : mcu) :
  same_frame s (state_after (run c l) s).
Proof.
  revert s. induction l as [| e l IH]; intros s.
  - unfold same_frame. cbn. auto 6.
  - cbn [run]. rewrite state_after_then.
    pose proof (step_frame e s) as (H1 & H2 & H3 & H4 & H5 & H6).
    pose proof (IH (state_after (step c e) s)) as (I1 & I2 & I3 & I4 & I5 & I6).
    unfold same_frame.
    rewrite I1, I2, I3, I4, I5, I6. auto 6.
Qed.

(** X12.  Over any schedule of handler calls and loop passes, the pins of port
    B other than [PPS_PIN], the direction register, the set-up of timer
    0 and the interrupt flag stay as they were. *)
Theorem run_frame (l : list event) (s : mcu) :
  let s' := state_after (run c l) s in
  (forall n, Z.testbit PPS_PIN n = false ->
             Z.testbit (PORTB s') n = Z.testbit (PORTB s) n)
  /\ DDRB s' = DDRB s
  /\ tmr0_prescaler s' = tmr0_prescaler s
  /\ tmr0_period s' = tmr0_period s
  /\ tmr0_handler s' = tmr0_handler s
  /\ interrupts_enabled s' = interrupts_enabled s.
Proof.
  cbv zeta.
  destruct (run_keeps_frame l s) as (H1 & H2 & H3 & H4 & H5 & H6).
  refine (conj _ (conj H2 (conj H3 (conj H4 (conj H5 H6))))).
  intros n Hn.
  assert (E : Z.testbit (Z.ldiff (PORTB (state_after (run c l) s)) PPS_PIN) n
              = Z.testbit (Z.ldiff (PORTB s) PPS_PIN) n) by now rewrite H1.
  rewrite !Z.ldiff_spec, Hn in E. cbn [negb] in E.
  now rewrite !andb_true_r in E.
Qed.

Lemma pps_init_reads ps s1 s2 :
  Z.ldiff (PORTB s2) PPS_PIN = Z.ldiff (PORTB s1) PPS_PIN ->
  Z.lor (DDRB s2) PPS_PIN = Z.lor (DDRB s1) PPS_PIN ->
  interrupts_enabled s2 = interrupts_enabled s1 ->
  state_after (pps_init c TMR0_PSMASK ps) s2
  = state_after (pps_init c TMR0_PSMASK ps) s1.
Proof.
  intros Hp Hd Hi.
  unfold state_after, pps_init, and_then, assign_cnt, IO_CLR, IO_OUT,
    tmr0_init, tmr0a_setpr, tmr0a_act.
  cbn [fst]. fields.
  now rewrite Hp, Hd, Hi.
Qed.

(** X13.  Calling [pps_init] again, after an earlier call and any schedule of
    handler calls and loop passes, gives the state that [pps_init]
    alone gives: the phase of the counter and the level of the pin are
    forgotten. *)
Theorem pps_init_restarts (ps ps' : Z) (l : list event) (s : mcu) :
  state_after (pps_init c TMR0_PSMASK ps')
    (state_after (run c l) (state_after (pps_init c TMR0_PSMASK ps) s))
  = state_after (pps_init c TMR0_PSMASK ps') s.
Proof.
  set (s1 := state_after (pps_init c TMR0_PSMASK ps) s).
  pose proof (run_keeps_frame l s1) as (H1 & H2 & _ & _ & _ & H6).
  rewrite (pps_init_reads ps' s1 _ H1 (f_equal (fun d => Z.lor d PPS_PIN) H2) H6).
  apply pps_init_reads; unfold s1, state_after, pps_init, and_then, assign_cnt,
    IO_CLR, IO_OUT, tmr0_init, tmr0a_setpr, tmr0a_act;
    cbn [fst]; fields.
  - apply ldiff_ldiff_mask.
  - apply lor_lor_mask.
  - reflexivity.
Qed.

End Restart.

(** ** From an accepted configuration to the waveform *)

Section AcceptedEngine.

Lemma main_setup_state c mask (selector : tmr0_ps -> Z) (mcu_init : action) ps s0 :
  valid_count c ->
  let sb := state_after (mcu_init ;; pps_init c mask (selector ps) ;; ei) s0 in
  running sb /\ cnt sb = ISR_CNT c /\ pin_high sb = false /\ pin_low sb = true.
Proof.
  intros count_ok sb. unfold sb. rewrite !state_after_then.
  destruct (pps_init_effects c mask (selector ps) (state_after mcu_init s0) count_ok)
    as (Hc & Hl & Hh & _ & Hhd & _).
  set (si := state_after (pps_init c mask (selector ps)) (state_after mcu_init s0))
    in *.
  unfold running, state_after, ei, pin_high, pin_low in *.
  cbn [fst cnt PORTB tmr0_handler interrupts_enabled with_interrupts_enabled].
  auto.
Qed.

(** X14.  A configuration within the widths of the data model that the build
    accepts, with a non-zero oscillator frequency and a duty count
    strictly inside the period: [main] is compiled and, once it has set
    the engine up, the handler call number [k] drives the pin high
    exactly when [ISR_CNT] divides [k], the loop after it drives the pin
    low exactly when [k] leaves the remainder [PPS_DC], and the pin is
    high after [n] periods exactly when a rising edge has occurred and
    fewer than [PPS_DC] calls have followed the last one. *)
Theorem accepted_waveform
    (c : config) (TMR0_PSMASK : Z) (selector : tmr0_ps -> Z) (mcu_init : action) :
  data_model_widths c ->
  accepted c = true ->
  0 < F_OSC c ->
  valid_duty c ->
  exists boot,
    main_setup c TMR0_PSMASK selector mcu_init = Some boot
    /\ forall (s0 : mcu) (n : nat),
         let s := state_after (times n (period c)) (state_after boot s0) in
         let k := Z.of_nat n + 1 in
         drives_high (trace_of (timer_interrupt c) s) = (k mod ISR_CNT c =? 0)
         /\ drives_low (trace_of (main_loop_body c)
                          (state_after (timer_interrupt c) s))
            = (k mod ISR_CNT c =? PPS_DC c)
         /\ pin_high s
            = (ISR_CNT c <=? Z.of_nat n) && (Z.of_nat n mod ISR_CNT c <? PPS_DC c)
         /\ pin_low s = negb (pin_high s).
Proof.
  intros Hw Ha Ho duty_ok.
  destruct (accepted_runs c Hw Ha Ho) as (count_ok & ps & Hps).
  exists (mcu_init ;; pps_init c TMR0_PSMASK (selector ps) ;; ei).
  split.
  - unfold main_setup. now rewrite Hps.
  - intros s0 n.
    destruct (main_setup_state c TMR0_PSMASK selector mcu_init ps s0 count_ok)
      as (Hrun & Hc & Hh & Hl).
    destruct (engine_invariant c count_ok duty_ok _ Hrun Hc Hh Hl n)
      as (_ & _ & Ih & Il).
    destruct (engine_next_period c count_ok duty_ok _ Hrun Hc Hh Hl n)
      as (Nh & Nl).
    exact (conj Nh (conj Nl (conj Ih Il))).
Qed.

Lemma accepted_waveform_witness :
  exists boot,
    main_setup configured sample_mask sample_selector skip = Some boot.
Proof.
  assert (Hw : data_model_widths configured).
  { unfold data_model_widths; simpl; lia. }
  assert (Ha : accepted configured = true) by (vm_compute; reflexivity).
  assert (Ho : 0 < F_OSC configured) by (simpl; lia).
  assert (Hd : valid_duty configured) by (unfold valid_duty; simpl; lia).
  destruct (accepted_waveform configured sample_mask sample_selector skip
              Hw Ha Ho Hd) as (boot & Hb & _).
  exact (ex_intro _ boot Hb).
Defined.

End AcceptedEngine.


(** ** The up-counter program *)

Section UpCounterFacts.

Variable u : UpCounter.config.
Hypothesis count_ok : valid_count_up u.

Local Arguments to_u16 : simpl never.

Lemma up_pps_out_cases s :
  0 <= cnt s < UpCounter.PPS_CNT u ->
  UpCounter.pps_out u s =
    if cnt s + 1 =? UpCounter.PPS_CNT u
    then (with_PORTB (Z.lor (PORTB s) PPS_PIN) (with_cnt 0 s), [DriveHigh PPS_PIN])
    else (with_cnt (cnt s + 1) s, []).
Proof.
  intros Hs. unfold valid_count_up in count_ok.
  unfold UpCounter.pps_out, and_then, assign_cnt, when, IO_SET, skip.
  cbn [cnt with_cnt fst snd].
  rewrite (to_u16_small (cnt s + 1)) by lia.
  destruct (cnt s + 1 =? UpCounter.PPS_CNT u); reflexivity.
Qed.

Lemma up_loop_cases s :
  UpCounter.main_loop_body u s =
    if cnt s =? UpCounter.PPS_DLY u
    then (with_PORTB (Z.ldiff (PORTB s) PPS_PIN) s, [DriveLow PPS_PIN])
    else (s, []).
Proof. reflexivity. Qed.

Lemma PPS_DLY_value : UpCounter.PPS_DLY u = UpCounter.PPS_CNT u / 10.
Proof.
  unfold valid_count_up in count_ok.
  unfold UpCounter.PPS_DLY, to_u32.
  rewrite Z.mod_small by lia.
  change 100 with (10 * 10). apply Z.div_mul_cancel_r; discriminate.
Qed.

Lemma PPS_DLY_inside : 0 <= UpCounter.PPS_DLY u < UpCounter.PPS_CNT u.
Proof.
  unfold valid_count_up in count_ok. rewrite PPS_DLY_value.
  pose proof (Z.div_mod (UpCounter.PPS_CNT u) 10) as Hq.
  pose proof (Z.mod_pos_bound (UpCounter.PPS_CNT u) 10) as Hb.
  lia.
Qed.

(** X16.  [PPS_DLY] is a tenth of [PPS_CNT], rounded down: the pulse lasts at
    most 10% of the period and is less than one timer period short of
    it. *)
Theorem duty_is_a_tenth :
  UpCounter.PPS_DLY u = UpCounter.PPS_CNT u / 10
  /\ 10 * UpCounter.PPS_DLY u <= UpCounter.PPS_CNT u < 10 * UpCounter.PPS_DLY u + 10
  /\ 0 <= UpCounter.PPS_DLY u < UpCounter.PPS_CNT u.
Proof.
  unfold valid_count_up in count_ok.
  rewrite PPS_DLY_value.
  pose proof (Z.div_mod (UpCounter.PPS_CNT u) 10) as Hq.
  pose proof (Z.mod_pos_bound (UpCounter.PPS_CNT u) 10) as Hb.
  lia.
Qed.

(** One period of the up-counter engine. *)
Lemma up_period_cases s :
  0 <= cnt s < UpCounter.PPS_CNT u ->
  let s' := state_after (UpCounter.period u) s in
  let boundary := cnt s + 1 =? UpCounter.PPS_CNT u in
  let c' := if boundary then 0 else cnt s + 1 in
  cnt s' = c'
  /\ drives_high (trace_of (UpCounter.pps_out u) s) = boundary
  /\ drives_low (trace_of (UpCounter.main_loop_body u)
                   (state_after (UpCounter.pps_out u) s))
     = (c' =? UpCounter.PPS_DLY u)
  /\ (if c' =? UpCounter.PPS_DLY u
      then pin_high s' = false /\ pin_low s' = true
      else if boundary
           then pin_high s' = true /\ pin_low s' = false
           else pin_high s' = pin_high s /\ pin_low s' = pin_low s).
Proof.
  intros Hs. cbv zeta. unfold UpCounter.period.
  rewrite state_after_then. unfold state_after, trace_of.
  rewrite up_pps_out_cases by assumption.
  destruct (cnt s + 1 =? UpCounter.PPS_CNT u); cbn [fst snd];
    rewrite up_loop_cases; cbn [cnt with_cnt with_PORTB].
  - destruct (0 =? UpCounter.PPS_DLY u); cbn [fst snd];
      unfold pin_high, pin_low; cbn [PORTB with_PORTB with_cnt];
      rewrite ?land_ldiff_mask, ?land_lor_mask; repeat split.
  - destruct (cnt s + 1 =? UpCounter.PPS_DLY u); cbn [fst snd];
      unfold pin_high, pin_low; cbn [PORTB with_PORTB with_cnt];
      rewrite ?land_ldiff_mask; repeat split.
Qed.

Lemma up_engine_invariant s0 :
  started_up s0 ->
  forall n : nat,
    let s := state_after (times n (UpCounter.period u)) s0 in
    let r := Z.of_nat n mod UpCounter.PPS_CNT u in
    cnt s = r
    /\ pin_high s
       = (UpCounter.PPS_CNT u <=? Z.of_nat n) && (r <? UpCounter.PPS_DLY u)
    /\ pin_low s = negb (pin_high s).
Proof.
  intros (Hc & Hh & Hl). unfold UpCounter.cnt_initial in Hc.
  pose proof PPS_DLY_inside as Hd.
  unfold valid_count_up in count_ok.
  induction n as [| n IH]; cbv zeta in *.
  - cbn [times]. unfold state_after, skip. cbn [fst].
    change (Z.of_nat 0) with 0. rewrite Z.mod_0_l by lia.
    destruct (Z.leb_spec (UpCounter.PPS_CNT u) 0); [lia |].
    cbn [andb]. rewrite Hh, Hl. auto.
  - destruct IH as (IHc & IHh & IHl).
    rewrite state_after_times_last.
    set (sn := state_after (times n (UpCounter.period u)) s0) in *.
    rewrite Nat2Z.inj_succ, <- Z.add_1_r, mod_succ by lia.
    pose proof (Z.mod_pos_bound (Z.of_nat n) (UpCounter.PPS_CNT u)) as Hb.
    pose proof (Z.mod_le (Z.of_nat n) (UpCounter.PPS_CNT u)) as Hle.
    assert (Hsmall : Z.of_nat n < UpCounter.PPS_CNT u ->
                     Z.of_nat n mod UpCounter.PPS_CNT u = Z.of_nat n).
    { intros. apply Z.mod_small. lia. }
    set (rn := Z.of_nat n mod UpCounter.PPS_CNT u) in *.
    destruct (up_period_cases sn) as (Sc & _ & _ & Sp); [lia |].
    rewrite Sc, IHc.
    rewrite IHc in Sp.
    destruct (Z.eqb_spec (rn + 1) (UpCounter.PPS_CNT u)) as [E | E].
    + split; [reflexivity |].
      destruct (Z.leb_spec (UpCounter.PPS_CNT u) (Z.of_nat n + 1)); [| lia].
      destruct (Z.eqb_spec 0 (UpCounter.PPS_DLY u)) as [E0 | E0];
        destruct Sp as [Sh Sl]; rewrite Sh, Sl.
      * rewrite <- E0. split; reflexivity.
      * destruct (Z.ltb_spec 0 (UpCounter.PPS_DLY u)); [| lia].
        split; reflexivity.
    + split; [reflexivity |].
      destruct (Z.eqb_spec (rn + 1) (UpCounter.PPS_DLY u)) as [E0 | E0];
        destruct Sp as [Sh Sl]; rewrite Sh, Sl.
      * destruct (Z.ltb_spec (rn + 1) (UpCounter.PPS_DLY u)); [lia |].
        rewrite andb_false_r. split; reflexivity.
      * rewrite IHl, IHh. split; [| reflexivity].
        destruct (Z.leb_spec (UpCounter.PPS_CNT u) (Z.of_nat n)),
                 (Z.leb_spec (UpCounter.PPS_CNT u) (Z.of_nat n + 1)),
                 (Z.ltb_spec rn (UpCounter.PPS_DLY u)),
                 (Z.ltb_spec (rn + 1) (UpCounter.PPS_DLY u));
          cbn [andb]; try reflexivity; lia.
Qed.

End UpCounterFacts.

Section UpCounterSetup.

Variable u : UpCounter.config.
Variable TMR0_PSMASK : Z.
Variable selector : tmr0_ps -> Z.

Lemma up_set_period_frame p s :
  let s' := state_after (UpCounter.set_period u selector p) s in
  cnt s' = cnt s /\ PORTB s' = PORTB s /\ DDRB s' = DDRB s
  /\ tmr0_prescaler s' = tmr0_prescaler s
  /\ tmr0_handler s' = tmr0_handler s
  /\ interrupts_enabled s' = interrupts_enabled s.
Proof.
  cbv zeta. unfold UpCounter.set_period, state_after.
  repeat (destruct (p =? _); [cbn; auto 6 |]). cbn. auto 6.
Qed.

Lemma up_pps_init_starts (ps : Z) (s : mcu) :
  cnt s = UpCounter.cnt_initial ->
  started_up (state_after (UpCounter.pps_init u TMR0_PSMASK selector ps) s).
Proof.
  intros Hc. unfold started_up, UpCounter.pps_init.
  set (p := Z.land (to_u32 ps) (to_u32 TMR0_PSMASK)).
  rewrite !state_after_then.
  set (s3 := state_after (tmr0_init p)
               (state_after (IO_OUT PPS_PIN) (state_after (IO_CLR PPS_PIN) s))).
  destruct (up_set_period_frame p s3) as (Fc & Fp & _).
  set (s4 := state_after (UpCounter.set_period u selector p) s3) in *.
  unfold pin_low, pin_high.
  unfold state_after at 1 2 3. unfold tmr0a_act.
  cbn [fst cnt PORTB with_tmr0_handler]. rewrite Fc, Fp.
  unfold s3, state_after, tmr0_init, IO_OUT, IO_CLR.
  cbn [fst cnt PORTB with_tmr0_prescaler with_DDRB with_PORTB].
  rewrite land_ldiff_mask. auto.
Qed.

(** X17.  [pps_init] of the up-counter program drives the pin low, makes it an
    output, programs the masked prescaler and installs the handler; it
    leaves the counter and the interrupt flag as they were, and it
    enables no interrupt.  When the masked selector is none of the five
    cases of the [switch], the period of the timer is left as it was
    too. *)
Theorem up_pps_init_effects (ps : Z) (s : mcu) :
  let p := Z.land (to_u32 ps) (to_u32 TMR0_PSMASK) in
  let s' := state_after (UpCounter.pps_init u TMR0_PSMASK selector ps) s in
  cnt s' = cnt s
  /\ pin_low s' = true
  /\ pin_high s' = false
  /\ pin_is_output s' = true
  /\ tmr0_prescaler s' = p
  /\ tmr0_handler s' = Some Pps_out
  /\ interrupts_enabled s' = interrupts_enabled s
  /\ existsb is_enable_interrupts
       (trace_of (UpCounter.pps_init u TMR0_PSMASK selector ps) s) = false
  /\ ((forall x, p <> to_u32 (selector x)) -> tmr0_period s' = tmr0_period s).
Proof.
  cbv zeta. unfold UpCounter.pps_init.
  set (p := Z.land (to_u32 ps) (to_u32 TMR0_PSMASK)).
  rewrite !state_after_then, !trace_of_then.
  set (s3 := state_after (tmr0_init p)
               (state_after (IO_OUT PPS_PIN) (state_after (IO_CLR PPS_PIN) s))).
  destruct (up_set_period_frame p s3) as (Fc & Fp & Fd & Fs & _ & Fi).
  set (s4 := state_after (UpCounter.set_period u selector p) s3) in *.
  unfold pin_low, pin_high, pin_is_output.
  unfold state_after at 1 2 3 4 5 6 7. unfold tmr0a_act.
  cbn [fst cnt PORTB DDRB tmr0_prescaler tmr0_period tmr0_handler
       interrupts_enabled with_tmr0_handler].
  rewrite Fc, Fp, Fd, Fs, Fi.
  unfold s3, state_after, tmr0_init, IO_OUT, IO_CLR.
  cbn [fst cnt PORTB DDRB tmr0_prescaler tmr0_period tmr0_handler
       interrupts_enabled with_tmr0_prescaler with_DDRB with_PORTB].
  rewrite land_ldiff_mask, land_lor_mask, Z.eqb_refl.
  refine (conj eq_refl (conj eq_refl (conj eq_refl (conj eq_refl
            (conj eq_refl (conj eq_refl (conj eq_refl (conj _ _)))))))).
  - unfold trace_of, UpCounter.set_period, tmr0_init, IO_OUT, IO_CLR,
      tmr0a_setpr, tmr0a_act, skip.
    repeat (destruct (p =? _); [reflexivity |]). reflexivity.
  - intros Hnone. unfold s4, state_after, UpCounter.set_period.
    rewrite (proj2 (Z.eqb_neq _ _) (Hnone TMR0_PS1x)),
      (proj2 (Z.eqb_neq _ _) (Hnone TMR0_PS8x)),
      (proj2 (Z.eqb_neq _ _) (Hnone TMR0_PS64x)),
      (proj2 (Z.eqb_neq _ _) (Hnone TMR0_PS256x)),
      (proj2 (Z.eqb_neq _ _) (Hnone TMR0_PS1024x)).
    reflexivity.
Qed.

(** X18.  With the selector of the prescaler 64, the one [main] passes, and a
    reload value that divides [F_CLK / 64], [pps_init] programs the
    period it derives from [PPS_CNT] back to [TMR_TOP]. *)
Theorem up_pps_init_period (ps : Z) (s : mcu) :
  let p := Z.land (to_u32 ps) (to_u32 TMR0_PSMASK) in
  p = to_u32 (selector TMR0_PS64x) ->
  p <> to_u32 (selector TMR0_PS1x) ->
  p <> to_u32 (selector TMR0_PS8x) ->
  0 < UpCounter.F_CLK u / 64 ->
  UpCounter.F_CLK u < 2 ^ 32 ->
  0 < UpCounter.TMR_TOP u < 2 ^ 32 ->
  (UpCounter.F_CLK u / 64) mod UpCounter.TMR_TOP u = 0 ->
  tmr0_period (state_after (UpCounter.pps_init u TMR0_PSMASK selector ps) s)
  = UpCounter.TMR_TOP u.
Proof.
  cbv zeta. intros H64 H1 H8 Hx Hf Ht Hdiv.
  assert (Hf0 : 0 <= UpCounter.F_CLK u).
  { destruct (Z.lt_ge_cases (UpCounter.F_CLK u) 0) as [Hneg | Hpos]; [| exact Hpos].
    pose proof (Z.div_lt_upper_bound (UpCounter.F_CLK u) 64 0). lia. }
  unfold UpCounter.pps_init.
  rewrite !state_after_then.
  unfold state_after at 1. unfold tmr0a_act.
  cbn [fst tmr0_period with_tmr0_handler].
  unfold state_after at 1. unfold UpCounter.set_period.
  apply Z.eqb_neq in H1, H8. rewrite H1, H8.
  rewrite (proj2 (Z.eqb_eq _ _) H64).
  unfold tmr0a_setpr. cbn [fst tmr0_period with_tmr0_period].
  unfold UpCounter.PPS_CNT, to_u32.
  rewrite (Z.mod_small (UpCounter.F_CLK u)), (Z.mod_small (UpCounter.TMR_TOP u))
    by lia.
  set (x := UpCounter.F_CLK u / 64) in *.
  set (t := UpCounter.TMR_TOP u) in *.
  pose proof (Z.div_mod x t) as Hq. rewrite Hdiv in Hq.
  assert (Hq' : x = x / t * t) by lia.
  assert (0 < x / t) by nia.
  rewrite Hq' at 1. rewrite Z.mul_comm. apply Z.div_mul. lia.
Qed.

(** X19.  The up-counter engine after its [pps_init], with the counter still
    at its initialiser: the handler call number [k] drives the pin high
    exactly when [PPS_CNT] divides [k], the loop after it drives the pin
    low exactly when [k] leaves the remainder [PPS_DLY], and the pin is
    high after [n] periods exactly when a rising edge has occurred and
    fewer than [PPS_DLY] calls have followed the last one. *)
Theorem up_waveform (ps : Z) (s0 : mcu) (n : nat) :
  valid_count_up u ->
  cnt s0 = UpCounter.cnt_initial ->
  let s := state_after (times n (UpCounter.period u))
             (state_after (UpCounter.pps_init u TMR0_PSMASK selector ps) s0) in
  let k := Z.of_nat n + 1 in
  drives_high (trace_of (UpCounter.pps_out u) s)
  = (k mod UpCounter.PPS_CNT u =? 0)
  /\ drives_low (trace_of (UpCounter.main_loop_body u)
                   (state_after (UpCounter.pps_out u) s))
     = (k mod UpCounter.PPS_CNT u =? UpCounter.PPS_DLY u)
  /\ pin_high s
     = (UpCounter.PPS_CNT u <=? Z.of_nat n)
       && (Z.of_nat n mod UpCounter.PPS_CNT u <? UpCounter.PPS_DLY u)
  /\ pin_low s = negb (pin_high s).
Proof.
  intros count_ok Hc. cbv zeta.
  pose proof (up_pps_init_starts ps s0 Hc) as Hst.
  destruct (up_engine_invariant u count_ok _ Hst n) as (Sc & Sh & Sl).
  set (s := state_after (times n (UpCounter.period u))
              (state_after (UpCounter.pps_init u TMR0_PSMASK selector ps) s0)) in *.
  unfold valid_count_up in count_ok.
  pose proof (Z.mod_pos_bound (Z.of_nat n) (UpCounter.PPS_CNT u)) as Hb.
  destruct (up_period_cases u count_ok s) as (_ & Ph & Pl & _); [lia |].
  rewrite Ph, Pl, Sc, mod_succ by lia.
  refine (conj _ (conj _ (conj Sh Sl))).
  - destruct (Z.eqb_spec (Z.of_nat n mod UpCounter.PPS_CNT u + 1)
                (UpCounter.PPS_CNT u)) as [E | E]; [reflexivity |].
    symmetry. apply Z.eqb_neq. lia.
  - reflexivity.
Qed.

End UpCounterSetup.

Section UpCounterInstances.

Let up_count_ok : valid_count_up UpCounter.configured.
Proof. unfold valid_count_up. vm_compute. split; discriminate. Defined.

Lemma duty_is_a_tenth_witness :
  UpCounter.PPS_DLY UpCounter.configured = UpCounter.PPS_CNT UpCounter.configured / 10.
Proof. exact (proj1 (duty_is_a_tenth UpCounter.configured up_count_ok)). Defined.

Lemma up_pps_init_effects_witness :
  cnt (state_after
         (UpCounter.pps_init UpCounter.configured sample_mask sample_selector 3)
         (with_cnt 700 power_on_up))
  = cnt (with_cnt 700 power_on_up).
Proof.
  exact (proj1 (up_pps_init_effects UpCounter.configured sample_mask
                  sample_selector 3 (with_cnt 700 power_on_up))).
Defined.

Lemma up_pps_init_period_witness :
  tmr0_period
    (state_after
       (UpCounter.pps_init UpCounter.configured sample_mask sample_selector
          (sample_selector TMR0_PS64x))
       power_on_up)
  = UpCounter.TMR_TOP UpCounter.configured.
Proof.
  assert (H64 : Z.land (to_u32 (sample_selector TMR0_PS64x)) (to_u32 sample_mask)
                = to_u32 (sample_selector TMR0_PS64x)) by reflexivity.
  assert (H1 : Z.land (to_u32 (sample_selector TMR0_PS64x)) (to_u32 sample_mask)
               <> to_u32 (sample_selector TMR0_PS1x)) by (vm_compute; discriminate).
  assert (H8 : Z.land (to_u32 (sample_selector TMR0_PS64x)) (to_u32 sample_mask)
               <> to_u32 (sample_selector TMR0_PS8x)) by (vm_compute; discriminate).
  assert (Hx : 0 < UpCounter.F_CLK UpCounter.configured / 64)
    by (vm_compute; reflexivity).
  assert (Hf : UpCounter.F_CLK UpCounter.configured < 2 ^ 32)
    by (vm_compute; reflexivity).
  assert (Ht : 0 < UpCounter.TMR_TOP UpCounter.configured < 2 ^ 32)
    by (vm_compute; split; reflexivity).
  assert (Hd : (UpCounter.F_CLK UpCounter.configured / 64)
               mod UpCounter.TMR_TOP UpCounter.configured = 0)
    by (vm_compute; reflexivity).
  exact (up_pps_init_period UpCounter.configured sample_mask sample_selector
           (sample_selector TMR0_PS64x) power_on_up H64 H1 H8 Hx Hf Ht Hd).
Defined.

Lemma up_waveform_witness :
  pin_low
    (state_after (times 5 (UpCounter.period UpCounter.configured))
       (state_after
          (UpCounter.pps_init UpCounter.configured sample_mask sample_selector 3)
          power_on_up))
  = negb
      (pin_high
         (state_after (times 5 (UpCounter.period UpCounter.configured))
            (state_after
               (UpCounter.pps_init UpCounter.configured sample_mask
                  sample_selector 3)
               power_on_up))).
Proof.
  exact (proj2 (proj2 (proj2
           (up_waveform UpCounter.configured sample_mask sample_selector 3
              power_on_up 5 up_count_ok eq_refl)))).
Defined.

End UpCounterInstances.


(** ** Counting in general *)

Section Counting.

(** X4.  The factorization check compares the two sides modulo [2^64], the
    width of the preprocessor's integers: the mismatch is reported, and
    the configuration not accepted, exactly when the oscillator
    frequency and the exact product differ modulo [2^64]. *)
Theorem factorization_modulo (c : config) :
  (In FOscNotDivisible (validate c)
   <-> F_OSC c mod 2 ^ 64 <> exact_product c mod 2 ^ 64)
  /\ (F_OSC c mod 2 ^ 64 <> exact_product c mod 2 ^ 64 -> accepted c = false).
Proof.
  pose proof (factorization_reported c) as H.
  change Cpp.modulus with (2 ^ 64) in H.
  split; [exact H |].
  intros Hne. apply reported_not_accepted with FOscNotDivisible.
  now apply H.
Qed.

Lemma factorization_modulo_witness : accepted (set_TMR_TOP 244 configured) = false.
Proof.
  assert (Hne : F_OSC (set_TMR_TOP 244 configured) mod 2 ^ 64
                <> exact_product (set_TMR_TOP 244 configured) mod 2 ^ 64).
  { vm_compute. discriminate. }
  exact (proj2 (factorization_modulo (set_TMR_TOP 244 configured)) Hne).
Defined.

(** X8.  After a schedule with [k] calls of the handler, from a state reached
    after [pps_init], the counter stands [k] steps further down its
    period, whatever the passes of the loop in between, and the pin has
    been driven high once for every time the counter passed 1. *)
Theorem schedule_counts (c : config) (TMR0_PSMASK : Z) (s : mcu) (l : list event) :
  valid_count c ->
  reachable c TMR0_PSMASK s ->
  let k := Z.of_nat (invocations l) in
  cnt (state_after (run c l) s) = (cnt s - 1 - k) mod ISR_CNT c + 1
  /\ Z.of_nat (rising (trace_of (run c l) s))
     = (k + ISR_CNT c - cnt s) / ISR_CNT c.
Proof.
  intros count_ok Hr.
  apply run_counts; [exact count_ok |].
  exact (reachable_in_period c count_ok _ _ Hr).
Qed.

Lemma schedule_counts_witness :
  cnt (state_after (run configured [Invoke; Poll; Invoke])
         (state_after (pps_init configured sample_mask 2) (power_on configured)))
  = (cnt (state_after (pps_init configured sample_mask 2) (power_on configured))
     - 1 - Z.of_nat (invocations [Invoke; Poll; Invoke]))
    mod ISR_CNT configured + 1.
Proof.
  assert (Hc : valid_count configured) by (unfold valid_count; simpl; lia).
  exact (proj1 (schedule_counts configured sample_mask _ [Invoke; Poll; Invoke] Hc
                  (reach_init configured sample_mask 2 (power_on configured)))).
Defined.

End Counting.

Section FrameInstance.

Lemma run_frame_witness :
  Z.testbit
    (PORTB (state_after (run configured [Invoke; Poll])
              (with_cnt 1 (power_on configured)))) 0
  = Z.testbit (PORTB (with_cnt 1 (power_on configured))) 0.
Proof.
  exact (proj1 (run_frame configured [Invoke; Poll]
                  (with_cnt 1 (power_on configured))) 0 eq_refl).
Defined.

End FrameInstance.

(** ** The duty window under a free-running loop *)

Section PolledWindow.

Variable c : config.
Hypothesis count_ok : valid_count c.
Hypothesis duty_ok : valid_duty c.

Lemma run_app_state l1 :
  forall l2 s,
    state_after (run c (l1 ++ l2)) s
    = state_after (run c l2) (state_after (run c l1) s).
Proof.
  induction l1 as [| e l1 IH]; intros l2 s; [reflexivity |].
  cbn [app run]. now rewrite !state_after_then, IH.
Qed.

Lemma run_app_trace l1 :
  forall l2 s,
    trace_of (run c (l1 ++ l2)) s
    = trace_of (run c l1) s ++ trace_of (run c l2) (state_after (run c l1) s).
Proof.
  induction l1 as [| e l1 IH]; intros l2 s; [reflexivity |].
  cbn [app run]. now rewrite !trace_of_then, state_after_then, IH, app_assoc.
Qed.

Lemma falling_edges_app l1 :
  forall l2 s,
    falling_edges c (l1 ++ l2) s
    = (falling_edges c l1 s + falling_edges c l2 (state_after (run c l1) s))%nat.
Proof.
  induction l1 as [| e l1 IH]; intros l2 s; [reflexivity |].
  cbn [app run falling_edges]. rewrite state_after_then, IH. lia.
Qed.

(** Passes of the loop away from the threshold do nothing. *)
Lemma passes_idle k :
  forall s,
    cnt s <> ISR_CNT c - PPS_DC c ->
    state_after (run c (repeat Poll k)) s = s
    /\ trace_of (run c (repeat Poll k)) s = []
    /\ falling_edges c (repeat Poll k) s = 0%nat.
Proof.
  induction k as [| k IH]; intros s Hs; [cbn; auto |].
  assert (E : main_loop_body c s = (s, [])).
  { rewrite main_loop_body_cases, duty_threshold_valid by assumption.
    destruct (Z.eqb_spec (cnt s) (ISR_CNT c - PPS_DC c)); [contradiction | reflexivity]. }
  assert (Es : state_after (main_loop_body c) s = s)
    by (unfold state_after; now rewrite E).
  assert (Et : trace_of (main_loop_body c) s = [])
    by (unfold trace_of; now rewrite E).
  destruct (IH s Hs) as (Is & It & Ie).
  cbn [repeat run falling_edges step].
  rewrite state_after_then, trace_of_then, Es, Et, Is, It, Ie.
  destruct (pin_high s); auto.
Qed.

Lemma cleared_is_low s : pin_high (cleared s) = false /\ pin_low (cleared s) = true.
Proof.
  unfold pin_high, pin_low, cleared. cbn [PORTB with_PORTB].
  rewrite land_ldiff_mask. split; reflexivity.
Qed.

Lemma pass_at_threshold s :
  cnt s = ISR_CNT c - PPS_DC c ->
  main_loop_body c s = (cleared s, [DriveLow PPS_PIN]).
Proof.
  intros Hs. rewrite main_loop_body_cases, duty_threshold_valid by assumption.
  rewrite Hs, Z.eqb_refl. reflexivity.
Qed.

Lemma cleared_twice s : cleared (cleared s) = cleared s.
Proof.
  unfold cleared, with_PORTB.
  cbn [cnt PORTB DDRB tmr0_prescaler tmr0_period tmr0_handler interrupts_enabled].
  now rewrite ldiff_ldiff_mask.
Qed.

(** Passes of the loop at the threshold, the pin already low: each one
    writes the pin low again and none is an edge. *)
Lemma passes_low k :
  forall s,
    cnt s = ISR_CNT c - PPS_DC c ->
    state_after (run c (repeat Poll k)) (cleared s) = cleared s
    /\ falling (trace_of (run c (repeat Poll k)) (cleared s)) = k
    /\ falling_edges c (repeat Poll k) (cleared s) = 0%nat.
Proof.
  induction k as [| k IH]; intros s Hs; [cbn; auto |].
  assert (E : main_loop_body c (cleared s) = (cleared s, [DriveLow PPS_PIN])).
  { rewrite pass_at_threshold by exact Hs. now rewrite cleared_twice. }
  assert (Es : state_after (main_loop_body c) (cleared s) = cleared s)
    by (unfold state_after; now rewrite E).
  assert (Et : trace_of (main_loop_body c) (cleared s) = [DriveLow PPS_PIN])
    by (unfold trace_of; now rewrite E).
  destruct (IH s Hs) as (Is & It & Ie).
  destruct (cleared_is_low s) as [Hh _].
  cbn [repeat run falling_edges step].
  rewrite state_after_then, trace_of_then, falling_app, Es, Et, Is, It, Ie, Hh.
  auto.
Qed.

(** Passes of the loop at the threshold, the pin high: the first one is
    the falling edge, and every one writes the pin low. *)
Lemma passes_at_threshold k s :
  cnt s = ISR_CNT c - PPS_DC c ->
  pin_high s = true ->
  state_after (run c (repeat Poll (S k))) s = cleared s
  /\ falling (trace_of (run c (repeat Poll (S k))) s) = S k
  /\ falling_edges c (repeat Poll (S k)) s = 1%nat.
Proof.
  intros Hs Hh.
  pose proof (pass_at_threshold s Hs) as E.
  assert (Es : state_after (main_loop_body c) s = cleared s)
    by (unfold state_after; now rewrite E).
  assert (Et : trace_of (main_loop_body c) s = [DriveLow PPS_PIN])
    by (unfold trace_of; now rewrite E).
  destruct (passes_low k s Hs) as (Is & It & Ie).
  destruct (cleared_is_low s) as [Hl _].
  cbn [repeat run falling_edges step].
  rewrite state_after_then, trace_of_then, falling_app, Es, Et, Is, It, Ie, Hh, Hl.
  auto.
Qed.

(** A call above the threshold with its passes: the counter goes down by
    one and nothing else happens. *)
Lemma call_quiet k s :
  pin_high s = true ->
  ISR_CNT c - PPS_DC c + 1 < cnt s <= ISR_CNT c ->
  state_after (run c (polled_call k)) s = with_cnt (cnt s - 1) s
  /\ trace_of (run c (polled_call k)) s = []
  /\ falling_edges c (polled_call k) s = 0%nat.
Proof.
  intros Hh Hs. unfold valid_count, valid_duty in *.
  assert (E : pps_out c s = (with_cnt (cnt s - 1) s, [])).
  { rewrite pps_out_in_period by (assumption || (unfold in_period; lia)).
    destruct (Z.eqb_spec (cnt s) 1); [lia | reflexivity]. }
  assert (Es : state_after (pps_out c) s = with_cnt (cnt s - 1) s)
    by (unfold state_after; now rewrite E).
  assert (Et : trace_of (pps_out c) s = [])
    by (unfold trace_of; now rewrite E).
  destruct (passes_idle (S k) (with_cnt (cnt s - 1) s)) as (Is & It & Ie).
  { cbn [cnt with_cnt]. lia. }
  assert (Hh' : pin_high (with_cnt (cnt s - 1) s) = true) by exact Hh.
  unfold polled_call. cbn [run falling_edges step].
  rewrite state_after_then, trace_of_then, Es, Et, Is, It, Ie, Hh, Hh'.
  auto.
Qed.

(** The call that brings the counter to the threshold, with its passes. *)
Lemma call_final k s :
  pin_high s = true ->
  cnt s = ISR_CNT c - PPS_DC c + 1 ->
  pin_low (state_after (run c (polled_call k)) s) = true
  /\ falling (trace_of (run c (polled_call k)) s) = S k
  /\ falling_edges c (polled_call k) s = 1%nat.
Proof.
  intros Hh Hs. unfold valid_count, valid_duty in *.
  assert (E : pps_out c s = (with_cnt (cnt s - 1) s, [])).
  { rewrite pps_out_in_period by (assumption || (unfold in_period; lia)).
    destruct (Z.eqb_spec (cnt s) 1); [lia | reflexivity]. }
  assert (Es : state_after (pps_out c) s = with_cnt (cnt s - 1) s)
    by (unfold state_after; now rewrite E).
  assert (Et : trace_of (pps_out c) s = [])
    by (unfold trace_of; now rewrite E).
  destruct (passes_at_threshold k (with_cnt (cnt s - 1) s)) as (Is & It & Ie).
  { cbn [cnt with_cnt]. lia. }
  { exact Hh. }
  assert (Hh' : pin_high (with_cnt (cnt s - 1) s) = true) by exact Hh.
  unfold polled_call. cbn [run falling_edges step].
  rewrite state_after_then, trace_of_then, falling_app, Es, Et, Is, It, Ie, Hh, Hh'.
  destruct (cleared_is_low (with_cnt (cnt s - 1) s)) as [_ Hl].
  auto.
Qed.

(** Calls that stay above the threshold, each with its passes. *)
Lemma calls_quiet ks :
  forall s,
    pin_high s = true ->
    ISR_CNT c - PPS_DC c + Z.of_nat (length ks) < cnt s <= ISR_CNT c ->
    let l := concat (map polled_call ks) in
    cnt (state_after (run c l) s) = cnt s - Z.of_nat (length ks)
    /\ pin_high (state_after (run c l) s) = true
    /\ trace_of (run c l) s = []
    /\ falling_edges c l s = 0%nat.
Proof.
  induction ks as [| k ks IH]; intros s Hh Hs; cbv zeta.
  - cbn. repeat split; try assumption. lia.
  - cbn [map concat length] in *. rewrite Nat2Z.inj_succ in Hs.
    destruct (call_quiet k s Hh) as (Cs & Ct & Ce); [lia |].
    rewrite run_app_state, run_app_trace, falling_edges_app, Cs, Ct, Ce.
    destruct (IH (with_cnt (cnt s - 1) s)) as (Ic & Ih & It & Ie).
    + exact Hh.
    + cbn [cnt with_cnt]. lia.
    + rewrite Ic, Ih, It, Ie. cbn [cnt with_cnt].
      rewrite Nat2Z.inj_succ. repeat split. lia.
Qed.

(** The window while fewer calls than [PPS_DC] have been made. *)
Lemma window_quiet p0 ks s :
  cnt s = ISR_CNT c -> pin_high s = true ->
  Z.of_nat (length ks) < PPS_DC c ->
  cnt (state_after (run c (polled_window p0 ks)) s)
  = ISR_CNT c - Z.of_nat (length ks)
  /\ pin_high (state_after (run c (polled_window p0 ks)) s) = true
  /\ trace_of (run c (polled_window p0 ks)) s = []
  /\ falling_edges c (polled_window p0 ks) s = 0%nat.
Proof.
  intros Hc Hh Hl. unfold valid_count, valid_duty in *.
  destruct (passes_idle p0 s) as (Ps & Pt & Pe); [lia |].
  unfold polled_window.
  rewrite run_app_state, run_app_trace, falling_edges_app, Ps, Pt, Pe.
  destruct (calls_quiet ks s Hh) as (Ic & Ih & It & Ie); [lia |].
  rewrite Ic, Ih, It, Ie, Hc. auto.
Qed.

End PolledWindow.

Section PolledWindowClaim.

(** C3, as the claim states it, at the constants of the file: after a
    rising edge, ten calls of the handler with two passes of the loop
    after each drive the pin low twice; and when the loop makes no pass
    between the tenth call and the eleventh, nothing drives the pin low
    and the pin is still high after the eleventh. *)
Lemma duty_window_counterexamples :
  drives_high (trace_of (pps_out configured) (with_cnt 1 (power_on configured)))
  = true
  /\ falling (trace_of (run configured (polled_window 0 (repeat 1%nat 10)))
                after_rising_edge) = 2%nat
  /\ falling (trace_of (run configured (repeat Invoke 11 ++ [Poll]))
                after_rising_edge) = 0%nat
  /\ pin_high (state_after (run configured (repeat Invoke 11 ++ [Poll]))
                 after_rising_edge) = true.
Proof. vm_compute. auto. Qed.

(** C3, amended.  Right after a call of the handler that drove the pin
    high, let the loop run any number of passes, and let each of the
    next [PPS_DC] calls of the handler be followed by at least one pass
    of the loop.  Then the pin has exactly one falling edge: it stays
    high, and nothing drives it low, as long as fewer than [PPS_DC]
    calls have been made; every pass that follows the [PPS_DC]-th call
    writes the pin low, the first of them being the edge; and the pin
    is low before any further call. *)
Theorem one_falling_edge_after_duty
    (c : config) (s0 : mcu) (p0 : nat) (ks : list nat) :
  valid_count c -> valid_duty c ->
  drives_high (trace_of (pps_out c) s0) = true ->
  length ks = Z.to_nat (PPS_DC c) ->
  let s := state_after (pps_out c) s0 in
  pin_high s = true
  /\ falling_edges c (polled_window p0 ks) s = 1%nat
  /\ falling (trace_of (run c (polled_window p0 ks)) s) = S (last ks 0%nat)
  /\ pin_low (state_after (run c (polled_window p0 ks)) s) = true
  /\ (forall ks1 ks2 : list nat,
        ks = ks1 ++ ks2 -> ks2 <> [] ->
        falling (trace_of (run c (polled_window p0 ks1)) s) = 0%nat
        /\ falling_edges c (polled_window p0 ks1) s = 0%nat
        /\ pin_high (state_after (run c (polled_window p0 ks1)) s) = true).
Proof.
  intros count_ok duty_ok Hrise Hlen s.
  assert (Hs : cnt s = ISR_CNT c /\ pin_high s = true).
  { unfold s, state_after. unfold trace_of in Hrise.
    rewrite pps_out_cases in *.
    destruct (to_u16 (cnt s0 - 1) =? 0); [| discriminate].
    cbn [fst]. split.
    - cbn [cnt with_cnt with_PORTB]. now apply reset_value.
    - unfold pin_high. cbn [PORTB with_PORTB]. rewrite land_lor_mask.
      apply Z.eqb_refl. }
  destruct Hs as [Hc Hp].
  assert (Hd : Z.of_nat (length ks) = PPS_DC c).
  { rewrite Hlen. apply Z2Nat.id. unfold valid_duty in duty_ok. lia. }
  assert (Hquiet : forall ks1 ks2 : list nat,
             ks = ks1 ++ ks2 -> ks2 <> [] ->
             cnt (state_after (run c (polled_window p0 ks1)) s)
             = ISR_CNT c - Z.of_nat (length ks1)
             /\ pin_high (state_after (run c (polled_window p0 ks1)) s) = true
             /\ trace_of (run c (polled_window p0 ks1)) s = []
             /\ falling_edges c (polled_window p0 ks1) s = 0%nat).
  { intros ks1 ks2 E Hne.
    apply (window_quiet c count_ok duty_ok); try assumption.
    rewrite E, length_app, Nat2Z.inj_add in Hd.
    destruct ks2 as [| k2 ks2]; [contradiction |].
    cbn [length] in Hd. lia. }
  assert (Hne : ks <> []).
  { intros E. rewrite E in Hd. cbn in Hd. unfold valid_duty in duty_ok. lia. }
  pose proof (app_removelast_last 0%nat Hne) as Esplit.
  set (ks1 := removelast ks) in *. set (k := last ks 0%nat) in *.
  destruct (Hquiet ks1 [k] Esplit) as (Qc & Qh & Qt & Qe); [discriminate |].
  assert (Ew : polled_window p0 ks = polled_window p0 ks1 ++ polled_call k).
  { unfold polled_window. rewrite Esplit at 1.
    rewrite map_app, concat_app. cbn [map concat].
    now rewrite app_nil_r, app_assoc. }
  assert (Hl1 : Z.of_nat (length ks1) = PPS_DC c - 1).
  { rewrite Esplit, length_app, Nat2Z.inj_add in Hd. cbn [length] in Hd. lia. }
  destruct (call_final c count_ok duty_ok k
              (state_after (run c (polled_window p0 ks1)) s) Qh)
    as (Fl & Ft & Fe); [lia |].
  refine (conj Hp (conj _ (conj _ (conj _ _)))).
  - rewrite Ew, falling_edges_app, Qe, Fe. reflexivity.
  - rewrite Ew, run_app_trace, falling_app, Qt, Ft. reflexivity.
  - rewrite Ew, run_app_state. exact Fl.
  - intros l1 l2 E Hl2.
    destruct (Hquiet l1 l2 E Hl2) as (_ & Rh & Rt & Re).
    rewrite Rt. auto.
Qed.

Lemma one_falling_edge_after_duty_witness :
  falling_edges configured (polled_window 2 (repeat 3%nat 10)) after_rising_edge
  = 1%nat
  /\ falling (trace_of (run configured (polled_window 2 (repeat 3%nat 10)))
                after_rising_edge)
     = S (last (repeat 3%nat 10) 0%nat).
Proof.
  assert (Hc : valid_count configured) by (unfold valid_count; simpl; lia).
  assert (Hd : valid_duty configured) by (unfold valid_duty; simpl; lia).
  assert (Hr : drives_high (trace_of (pps_out configured)
                              (with_cnt 1 (power_on configured))) = true).
  { vm_compute. reflexivity. }
  assert (Hl : length (repeat 3%nat 10) = Z.to_nat (PPS_DC configured)).
  { vm_compute. reflexivity. }
  pose proof (one_falling_edge_after_duty configured
                (with_cnt 1 (power_on configured)) 2 (repeat 3%nat 10)
                Hc Hd Hr Hl) as H.
  cbv zeta in H.
  exact (conj (proj1 (proj2 H)) (proj1 (proj2 (proj2 H)))).
Defined.

End PolledWindowClaim.
